(** * skbio.io.util: [open_file] and [open_files]

    A shallow embedding of [skbio/io/util.py].  The module classifies an
    argument as "string or bytes" or "anything else", resolves the former
    through [requests] (http and https URLs) or the builtin [open], passes
    the latter through, and wraps the result in generator based context
    managers that close what they opened.

    The Python heap is an explicit store of stream objects, the calls the
    module makes to its collaborators are recorded in a log, and the
    collaborators themselves ([urlparse], the cached [requests] session,
    [open], [close]) are fields of an environment record.

    The store records what the calls of the program do to the streams.
    What the interpreter does to a stream once nothing refers to it any
    more (CPython finalizes and closes an unreferenced file at once, other
    interpreters later or never) is not part of it: the properties below
    speak of the calls the module makes, of the streams it closes, and of
    the streams of the caller. *)

From Stdlib Require Import ZArith Lia.
From Stdlib Require Import Strings.String Strings.Ascii Strings.Byte.
From stdpp Require Import base option list gmap strings.

Open Scope string_scope.

(** ** Python values *)

Abbreviation handle := nat (only parsing).

(** Text strings ([str] on Python 3, [unicode] on Python 2) carry their
    characters, byte strings ([bytes] on Python 3, the native [str] on
    Python 2) carry their bytes; an object is known by its identity. *)
#[warnings="-register-all"]
Inductive pyval : Type :=
| VNone
| VBool (b : bool)
| VInt (z : Z)
| VText (s : string)
| VBytes (b : list byte)
| VTuple (items : list pyval)
| VObj (h : handle).

Inductive exn : Type :=
| HTTPError (status : Z)
| ConnectionError
| FileNotFoundError
| PermissionError
| OSError
| BufferError
| ValueError
| TypeError
| AttributeError
| UnicodeDecodeError
| UserError (tag : nat).

Inductive result (A : Type) : Type :=
| Ok (a : A)
| Raise (e : exn).
Arguments Ok {A} a.
Arguments Raise {A} e.

(** The module imports [bytes] and [str] from [future.builtins] and
    [BytesIO] from [six]: it is written for both interpreters. *)
Inductive PyVersion : Type := Py2 | Py3.

(** ** Streams, the store and the call log *)

Inductive stream_origin : Type :=
| FromOpen (path : pyval) (args : list pyval) (kwargs : gmap string pyval)
| FromBytesIO (content : list byte)
| Supplied.

Record stream : Type := Stream { origin : stream_origin; closed : bool }.

Record response : Type := Response { status_code : Z; content : list byte }.

Inductive event : Type :=
| EvUrlparse (x : pyval)
| EvGet (url : pyval) (kwargs : gmap string pyval)
| EvRaiseForStatus (r : response)
| EvBytesIO (h : handle)
| EvOpen (path : pyval) (args : list pyval) (kwargs : gmap string pyval)
| EvYield (v : pyval)
| EvClose (v : pyval).

Record world : Type := World { heap : gmap handle stream; log : list event }.

(** ** The collaborators

    [urlparse_scheme x] is [requests.compat.urlparse(x).scheme];
    [session_get url kwargs] stands for the two statements that build the
    [CacheControl] session backed by [FileCache(gettempdir())] and call
    [sess.get] on [url] and the unpacked [kwargs]: it raises when either of
    them does, and else gives the response, with its body read;
    [raise_for_status r] is [r.raise_for_status()];
    [builtin_open p args kwargs] is [open] called on [p], the unpacked
    [args] and the unpacked [kwargs];
    [close_error s] tells whether [close()] raises on the stream [s], and
    [closed_after_error s] whether the stream is closed all the same when
    it does: a file whose [close()] raises while it flushes is, a
    [BytesIO] that refuses to close because its buffer is exported is
    not. *)
Record Env : Type := {
  py_version : PyVersion;
  urlparse_scheme : pyval -> result pyval;
  session_get : pyval -> gmap string pyval -> result response;
  raise_for_status : response -> option exn;
  builtin_open : pyval -> list pyval -> gmap string pyval -> option exn;
  close_error : stream -> option exn;
  closed_after_error : stream -> bool
}.

(** ** A state and exception monad *)

Definition M (A : Type) : Type := world -> world * result A.

Definition ret {A} (a : A) : M A := fun w => (w, Ok a).

Definition raise {A} (e : exn) : M A := fun w => (w, Raise e).

Definition bind {A B} (m : M A) (k : A -> M B) : M B :=
  fun w => match m w with
           | (w', Ok a) => k a w'
           | (w', Raise e) => (w', Raise e)
           end.

Declare Scope py_scope.
Delimit Scope py_scope with py.
Notation "x <- c1 ;; c2" := (bind c1 (fun x => c2))
  (at level 100, c1 at next level, right associativity) : py_scope.
Notation "c1 ;; c2" := (bind c1 (fun _ => c2))
  (at level 100, right associativity) : py_scope.
Open Scope py_scope.

Definition lift {A} (r : result A) : M A := fun w => (w, r).

Definition emit (ev : event) : M unit :=
  fun w => (World (heap w) (log w ++ [ev]), Ok tt).

(** A new object gets an identity no live object has. *)
Definition new_handle (hp : gmap handle stream) : handle :=
  S (max_list (map fst (map_to_list hp))).

Definition alloc (s : stream) : M handle :=
  fun w => let h := new_handle (heap w) in
           (World (<[h := s]> (heap w)) (log w), Ok h).

Definition mark_closed (s : stream) : stream := Stream (origin s) true.

(** The stream a [close()] that raised leaves behind. *)
Definition after_error (env : Env) (s : stream) : stream :=
  if closed_after_error env s then mark_closed s else s.

(** [fh.close()].  A [close()] that raises leaves the stream closed or as
    it was, as the environment tells; a value that is not a stream of the
    store has nothing to close. *)
Definition close (env : Env) (fh : pyval) : M unit :=
  emit (EvClose fh) ;;
  fun w => match fh with
           | VObj h =>
               match heap w !! h with
               | Some s =>
                   match close_error env s with
                   | Some e =>
                       (World (<[h := after_error env s]> (heap w)) (log w), Raise e)
                   | None => (World (<[h := mark_closed s]> (heap w)) (log w), Ok tt)
                   end
               | None => (w, Raise AttributeError)
               end
           | _ => (w, Raise AttributeError)
           end.

(** ** The module *)

(** [isinstance(s, str) or isinstance(s, bytes)] *)
Definition isinstance_str (s : pyval) : bool :=
  match s with VText _ => true | _ => false end.

Definition isinstance_bytes (s : pyval) : bool :=
  match s with VBytes _ => true | _ => false end.

Definition _is_string_or_bytes (s : pyval) : bool :=
  isinstance_str s || isinstance_bytes s.

(** [x == lit] for a string literal of the module.  The module has no
    [unicode_literals] import: its literals are text on Python 3 and native
    byte strings on Python 2.  Python 3 never finds text equal to bytes;
    Python 2 compares the two through the ASCII codec. *)
Definition eq_literal (v : PyVersion) (x : pyval) (lit : string) : bool :=
  match x with
  | VText s => String.eqb s lit
  | VBytes b =>
      match v with
      | Py2 => String.eqb (string_of_list_byte b) lit
      | Py3 => false
      end
  | _ => false
  end.

(** [x in {'http', 'https'}] *)
Definition in_http_set (v : PyVersion) (x : pyval) : bool :=
  existsb (eq_literal v x) ["http"; "https"].

Definition _get_filehandle (env : Env) (filepath_or : pyval)
    (args : list pyval) (kwargs : gmap string pyval) : M (pyval * bool) :=
  if _is_string_or_bytes filepath_or then
    emit (EvUrlparse filepath_or) ;;
    scheme <- lift (urlparse_scheme env filepath_or) ;;
    if in_http_set (py_version env) scheme then
      emit (EvGet filepath_or kwargs) ;;
      req <- lift (session_get env filepath_or kwargs) ;;
      emit (EvRaiseForStatus req) ;;
      match raise_for_status env req with
      | Some e => raise e
      | None =>
          h <- alloc (Stream (FromBytesIO (content req)) false) ;;
          emit (EvBytesIO h) ;;
          ret (VObj h, true)
      end
    else
      emit (EvOpen filepath_or args kwargs) ;;
      match builtin_open env filepath_or args kwargs with
      | Some e => raise e
      | None =>
          h <- alloc (Stream (FromOpen filepath_or args kwargs) false) ;;
          ret (VObj h, true)
      end
  else
    ret (filepath_or, false).

(** ** Generator based context managers

    A [@contextmanager] generator of the shape
    [<setup>; try: yield v; finally: <cleanup>] runs its setup, suspends at
    the [yield] with the value handed to the [with] body, and keeps the
    [finally] block for when the body is left. *)
Record suspended : Type := Suspended { yielded : pyval; cleanup : M unit }.

Definition try_yield_finally (v : pyval) (fin : M unit) : M suspended :=
  emit (EvYield v) ;; ret (Suspended v fin).

(** The caller's scope: it gets the yielded value, works on the store, and
    ends normally ([None]) or by raising. *)
Definition scope_body : Type :=
  pyval -> gmap handle stream -> gmap handle stream * option exn.

Definition outcome (r : option exn) : result unit :=
  match r with
  | Some e => Raise e
  | None => Ok tt
  end.

(** [with cm as v: body(v)].  A failure of the setup skips the body.  After
    the body the generator is resumed (or the body's exception is thrown
    into it), which runs the [finally] block; an exception of the [finally]
    block replaces the outcome of the body. *)
Definition with_stmt (cm : M suspended) (body : scope_body) : M unit :=
  fun w =>
    match cm w with
    | (w1, Raise e) => (w1, Raise e)
    | (w1, Ok g) =>
        let '(hp, r) := body (yielded g) (heap w1) in
        match cleanup g (World hp (log w1)) with
        | (w2, Raise e) => (w2, Raise e)
        | (w2, Ok _) => (w2, outcome r)
        end
    end.

Definition open_file (env : Env) (filepath_or : pyval)
    (args : list pyval) (kwargs : gmap string pyval) : M suspended :=
  p <- _get_filehandle env filepath_or args kwargs ;;
  let fh := fst p in
  let own_fh := snd p in
  try_yield_finally fh (if own_fh then close env fh else ret tt).

(** [[f(x) for x in l]] *)
Fixpoint list_comprehension {A B} (f : A -> M B) (l : list A) : M (list B) :=
  match l with
  | [] => ret []
  | x :: l' =>
      y <- f x ;;
      ys <- list_comprehension f l' ;;
      ret (y :: ys)
  end.

(** [zip] applied to the star-unpacked list of [(fh, own)] pairs: no column
    for an empty list, else the column of the streams and the column of the
    flags. *)
Inductive column : Type :=
| Fhs (fhs : list pyval)
| Owns (owns : list bool).

Definition zip_star (pairs : list (pyval * bool)) : list column :=
  match pairs with
  | [] => []
  | _ :: _ => [Fhs (map fst pairs); Owns (map snd pairs)]
  end.

(** [fhs, owns = ...]: unpacking into two targets wants two items. *)
Definition unpack2 (cols : list column) : result (list pyval * list bool) :=
  match cols with
  | [Fhs fhs; Owns owns] => Ok (fhs, owns)
  | _ => Raise ValueError
  end.

(** [for fh, is_own in pairs: if is_own: fh.close()] *)
Fixpoint close_owned (env : Env) (pairs : list (pyval * bool)) : M unit :=
  match pairs with
  | [] => ret tt
  | (fh, is_own) :: rest =>
      (if is_own then close env fh else ret tt) ;;
      close_owned env rest
  end.

(** [[_get_filehandle(f, *args, **kwargs) for f in fp_list]].  When the
    resolution of an element raises, the results gathered so far are
    dropped with the exception: no call is made on the streams among them,
    which nothing refers to from then on. *)
Definition resolve_each (env : Env) (args : list pyval)
    (kwargs : gmap string pyval) (fp_list : list pyval) : M (list (pyval * bool)) :=
  list_comprehension (fun f => _get_filehandle env f args kwargs) fp_list.

Definition open_files (env : Env) (fp_list : list pyval)
    (args : list pyval) (kwargs : gmap string pyval) : M suspended :=
  pairs <- resolve_each env args kwargs fp_list ;;
  cols <- lift (unpack2 (zip_star pairs)) ;;
  let fhs := fst cols in
  let owns := snd cols in
  try_yield_finally (VTuple fhs) (close_owned env (zip fhs owns)).

(** ** A sample environment

    A small world to run the module in: [urlparse] takes the scheme before
    the first colon, two URLs and two files exist. *)
Module Sample.

Definition is_scheme_char (c : ascii) : bool :=
  let n := nat_of_ascii c in
  (((97 <=? n) && (n <=? 122)) || ((65 <=? n) && (n <=? 90))
   || ((48 <=? n) && (n <=? 57))
   || (n =? 43) || (n =? 45) || (n =? 46))%nat.

Definition is_letter (c : ascii) : bool :=
  let n := nat_of_ascii c in
  (((97 <=? n) && (n <=? 122)) || ((65 <=? n) && (n <=? 90)))%nat.

Definition lower (c : ascii) : ascii :=
  let n := nat_of_ascii c in
  if ((65 <=? n) && (n <=? 90))%nat then ascii_of_nat (n + 32) else c.

(** The characters before the first colon, if there is a colon. *)
Fixpoint before_colon (s : string) : option (list ascii) :=
  match s with
  | EmptyString => None
  | String c s' =>
      if Ascii.eqb c ":" then Some []
      else match before_colon s' with
           | Some p => Some (c :: p)
           | None => None
           end
  end.

Definition scheme_of (url : string) : string :=
  match before_colon url with
  | Some (c :: p) =>
      if is_letter c && forallb is_scheme_char p
      then string_of_list_ascii (map lower (c :: p))
      else ""
  | _ => ""
  end.

Definition is_ascii_byte (b : byte) : bool := (Byte.to_N b <? 128)%N.

(** Text in, text out; bytes in, bytes out.  Python 3 decodes a byte
    string with the ASCII codec before it parses; Python 2 parses the
    native string as it is. *)
Definition urlparse (v : PyVersion) (x : pyval) : result pyval :=
  match x with
  | VText s => Ok (VText (scheme_of s))
  | VBytes b =>
      match v with
      | Py2 => Ok (VBytes (list_byte_of_string (scheme_of (string_of_list_byte b))))
      | Py3 =>
          if forallb is_ascii_byte b
          then Ok (VBytes (list_byte_of_string (scheme_of (string_of_list_byte b))))
          else Raise UnicodeDecodeError
      end
  | _ => Raise AttributeError
  end.

Definition url_text (x : pyval) : string :=
  match x with
  | VText s => s
  | VBytes b => string_of_list_byte b
  | _ => ""
  end.

Definition get (url : pyval) (kwargs : gmap string pyval) : result response :=
  if String.eqb (url_text url) "http://example.com/seqs.fasta"
  then Ok (Response 200 (list_byte_of_string "abc"))
  else if String.eqb (url_text url) "http://example.com/missing"
  then Ok (Response 404 [])
  else Raise ConnectionError.

(** [requests] raises for the 4xx and 5xx statuses. *)
Definition check_status (r : response) : option exn :=
  if ((400 <=? status_code r) && (status_code r <? 600))%Z
  then Some (HTTPError (status_code r))
  else None.

Definition fs_open (p : pyval) (args : list pyval)
    (kwargs : gmap string pyval) : option exn :=
  if String.eqb (url_text p) "a.txt" || String.eqb (url_text p) "b.txt"
  then None
  else Some FileNotFoundError.

(** A file is closed even when its [close()] raised; a [BytesIO] is not. *)
Definition file_closed_anyway (s : stream) : bool :=
  match origin s with
  | FromOpen _ _ _ => true
  | _ => false
  end.

Definition env (v : PyVersion) : Env :=
  {| py_version := v;
     urlparse_scheme := urlparse v;
     session_get := get;
     raise_for_status := check_status;
     builtin_open := fs_open;
     close_error := fun _ => None;
     closed_after_error := file_closed_anyway |}.

(** The same world, where the file [a.txt] cannot be flushed on close. *)
Definition stuck (s : stream) : option exn :=
  match origin s with
  | FromOpen p _ _ => if String.eqb (url_text p) "a.txt" then Some OSError else None
  | _ => None
  end.

Definition env_stuck : Env :=
  {| py_version := Py3;
     urlparse_scheme := urlparse Py3;
     session_get := get;
     raise_for_status := check_status;
     builtin_open := fs_open;
     close_error := stuck;
     closed_after_error := file_closed_anyway |}.

Definition w0 : world := World ∅ [].

(** A store with one stream the caller opened itself. *)
Definition w1 : world := World {[ 7 := Stream Supplied false ]} [].

(** A body that only looks at the stream, and one that fails. *)
Definition idle : scope_body := fun _ hp => (hp, None).
Definition failing : scope_body := fun _ hp => (hp, Some (UserError 1)).

Definition url_ok : string := "http://example.com/seqs.fasta".
Definition url_missing : string := "http://example.com/missing".

Definition a_txt : pyval := VText "a.txt".
Definition b_txt : pyval := VText "b.txt".
Definition missing_txt : pyval := VText "missing.txt".
Definition url_bytes : pyval := VBytes (list_byte_of_string url_ok).

End Sample.

(** ** Observations on a run *)

(** The events a run added to the log. *)
Definition since (w w' : world) : list event :=
  drop (length (log w)) (log w').

(** The targets of the [close()] calls, in call order. *)
Fixpoint close_events (l : list event) : list pyval :=
  match l with
  | [] => []
  | EvClose v :: l' => v :: close_events l'
  | _ :: l' => close_events l'
  end.

(** The values handed to a [with] body. *)
Fixpoint yield_events (l : list event) : list pyval :=
  match l with
  | [] => []
  | EvYield v :: l' => v :: yield_events l'
  | _ :: l' => yield_events l'
  end.

(** The arguments [urlparse] was called on. *)
Fixpoint parse_events (l : list event) : list pyval :=
  match l with
  | [] => []
  | EvUrlparse v :: l' => v :: parse_events l'
  | _ :: l' => parse_events l'
  end.

(** The calls that fetch or open something, with their arguments. *)
Fixpoint io_calls (l : list event) : list event :=
  match l with
  | [] => []
  | EvGet url kwargs :: l' => EvGet url kwargs :: io_calls l'
  | EvOpen path args kwargs :: l' => EvOpen path args kwargs :: io_calls l'
  | _ :: l' => io_calls l'
  end.

(** Whether [fh.close()] raises in the store [hp]. *)
Definition close_refused (env : Env) (hp : gmap handle stream) (fh : pyval) : bool :=
  match fh with
  | VObj h =>
      match hp !! h with
      | Some s => match close_error env s with Some _ => true | None => false end
      | None => true
      end
  | _ => true
  end.

Definition is_closed (hp : gmap handle stream) (fh : pyval) : bool :=
  match fh with
  | VObj h => match hp !! h with Some s => closed s | None => false end
  | _ => false
  end.

(** The streams of the pairs whose ownership flag is set, in order. *)
Fixpoint owned (pairs : list (pyval * bool)) : list pyval :=
  match pairs with
  | [] => []
  | (fh, true) :: rest => fh :: owned rest
  | (_, false) :: rest => owned rest
  end.

(** The streams a loop of [close()] calls reaches: all of them up to and
    including the first one that refuses to close. *)
Fixpoint attempted (env : Env) (hp : gmap handle stream) (l : list pyval) : list pyval :=
  match l with
  | [] => []
  | fh :: l' => fh :: (if close_refused env hp fh then [] else attempted env hp l')
  end.

(** What the resolution of one input gives, seen from the store [hp] it
    started in: a string gives a stream that did not exist, owned; anything
    else gives itself, not owned. *)
Definition resolves_to (hp : gmap handle stream) (x : pyval) (p : pyval * bool) : Prop :=
  snd p = _is_string_or_bytes x ∧
  if snd p then ∃ h, fst p = VObj h ∧ hp !! h = None else fst p = x.

(** The stream the module makes for the string [x]: open, and either the
    file [open] gave for [x] with the options, or an in-memory stream over
    the body of the response to the GET of [x]. *)
Definition opened_for (env : Env) (x : pyval) (args : list pyval)
    (kwargs : gmap string pyval) (s : stream) : Prop :=
  closed s = false ∧
  match urlparse_scheme env x with
  | Ok scheme =>
      if in_http_set (py_version env) scheme
      then ∃ resp, session_get env x kwargs = Ok resp ∧
                   origin s = FromBytesIO (content resp)
      else origin s = FromOpen x args kwargs
  | Raise _ => False
  end.

(** What the resolution of the input [x] gives at its position, seen from
    the store [hp] before the resolutions and the store [hp1] after them:
    a string gives an owned stream that did not exist before and is, after,
    the open stream made for this string; anything else gives itself, not
    owned. *)
Definition resolved_as (env : Env) (args : list pyval) (kwargs : gmap string pyval)
    (hp hp1 : gmap handle stream) (x : pyval) (p : pyval * bool) : Prop :=
  snd p = _is_string_or_bytes x ∧
  if snd p
  then ∃ h s, fst p = VObj h ∧ hp !! h = None ∧ hp1 !! h = Some s ∧
              opened_for env x args kwargs s
  else fst p = x.

Open Scope list_scope.

(** Two readings of the release contract of [open_files], to be compared
    with what the code does.

    [yields_all_closes_owned]: every list whose elements all resolve is
    yielded as the tuple of the resolved streams, and the [close()] calls
    of the run are the owned streams, in order.

    [released_on_failure]: when the resolution of an element fails,
    [open_files] closes the owned streams of the elements before it: each
    of them is the target of a [close()] call of the run. *)
Definition yields_all_closes_owned (env : Env) (fp_list args : list pyval)
    (kwargs : gmap string pyval) (body : scope_body) (w : world) : Prop :=
  ∀ w1 pairs,
    resolve_each env args kwargs fp_list w = (w1, Ok pairs) →
    let w' := fst (with_stmt (open_files env fp_list args kwargs) body w) in
    yield_events (since w w') = [VTuple (map fst pairs)] ∧
    close_events (since w w') = owned pairs.


(** A body written for one stream, run on the one-element tuple that
    [open_files] yields for a one-element list. *)
Definition on_single (body : scope_body) : scope_body :=
  fun v hp =>
    match v with
    | VTuple [fh] => body fh hp
    | _ => (hp, None)
    end.

(** ** Properties *)

Section Basics.

Context (env : Env).

Lemma new_handle_fresh (hp : gmap handle stream) : hp !! new_handle hp = None.
Proof.
  destruct (hp !! new_handle hp) as [s|] eqn:E; [|done].
  exfalso. apply elem_of_map_to_list in E.
  assert (new_handle hp ∈ map fst (map_to_list hp)) as Hin.
  { apply list_elem_of_fmap. by exists (new_handle hp, s). }
  apply max_list_elem_of_le in Hin. unfold new_handle in Hin at 1. lia.
Qed.

Lemma since_app (w w' : world) (evs : list event) :
  log w' = log w ++ evs → since w w' = evs.
Proof. intros H. unfold since. by rewrite H, drop_app_length. Qed.

Lemma close_events_app (l1 l2 : list event) :
  close_events (l1 ++ l2) = close_events l1 ++ close_events l2.
Proof.
  induction l1 as [|ev l1 IH]; [done|].
  destruct ev; simpl; by rewrite ?IH.
Qed.

Lemma yield_events_app (l1 l2 : list event) :
  yield_events (l1 ++ l2) = yield_events l1 ++ yield_events l2.
Proof.
  induction l1 as [|ev l1 IH]; [done|].
  destruct ev; simpl; by rewrite ?IH.
Qed.

Lemma parse_events_app (l1 l2 : list event) :
  parse_events (l1 ++ l2) = parse_events l1 ++ parse_events l2.
Proof.
  induction l1 as [|ev l1 IH]; [done|].
  destruct ev; simpl; by rewrite ?IH.
Qed.

End Basics.

(** *** One resolution *)

Section Resolution.

Context (env : Env).
Implicit Types (x fh : pyval) (args : list pyval) (kwargs : gmap string pyval).
Implicit Types (w : world).

(** The run of [_get_filehandle] on a string, call by call. *)
Lemma get_filehandle_string x args kwargs w :
  _is_string_or_bytes x = true →
  _get_filehandle env x args kwargs w =
  match urlparse_scheme env x with
  | Raise e => (World (heap w) (log w ++ [EvUrlparse x]), Raise e)
  | Ok scheme =>
      if in_http_set (py_version env) scheme then
        match session_get env x kwargs with
        | Raise e =>
            (World (heap w) (log w ++ [EvUrlparse x; EvGet x kwargs]), Raise e)
        | Ok req =>
            match raise_for_status env req with
            | Some e =>
                (World (heap w)
                   (log w ++ [EvUrlparse x; EvGet x kwargs; EvRaiseForStatus req]),
                 Raise e)
            | None =>
                let h := new_handle (heap w) in
                (World (<[h := Stream (FromBytesIO (content req)) false]> (heap w))
                   (log w ++ [EvUrlparse x; EvGet x kwargs; EvRaiseForStatus req;
                              EvBytesIO h]),
                 Ok (VObj h, true))
            end
        end
      else
        match builtin_open env x args kwargs with
        | Some e =>
            (World (heap w) (log w ++ [EvUrlparse x; EvOpen x args kwargs]), Raise e)
        | None =>
            let h := new_handle (heap w) in
            (World (<[h := Stream (FromOpen x args kwargs) false]> (heap w))
               (log w ++ [EvUrlparse x; EvOpen x args kwargs]),
             Ok (VObj h, true))
        end
  end.
Proof.
  intros Hs. unfold _get_filehandle. rewrite Hs.
  unfold bind, emit, lift, raise, ret, alloc; simpl.
  destruct (urlparse_scheme env x) as [scheme|e]; [|done].
  destruct (in_http_set (py_version env) scheme); simpl.
  - destruct (session_get env x kwargs) as [req|e]; simpl;
      [|by rewrite <- app_assoc].
    destruct (raise_for_status env req); simpl; by rewrite <- !app_assoc.
  - destruct (builtin_open env x args kwargs); simpl; by rewrite <- !app_assoc.
Qed.

Lemma get_filehandle_other x args kwargs w :
  _is_string_or_bytes x = false →
  _get_filehandle env x args kwargs w = (w, Ok (x, false)).
Proof. intros Hs. unfold _get_filehandle. by rewrite Hs. Qed.

(** What every resolution keeps: it only adds to the log, calls no
    [close()], yields nothing, and either leaves the store alone or adds
    one open stream under an unused identity. *)
Lemma get_filehandle_inv x args kwargs w w' r :
  _get_filehandle env x args kwargs w = (w', r) →
  ∃ evs, log w' = log w ++ evs ∧ close_events evs = [] ∧ yield_events evs = [] ∧
    parse_events evs = (if _is_string_or_bytes x then [x] else []) ∧
    match r with
    | Ok p =>
        snd p = _is_string_or_bytes x ∧
        if snd p
        then ∃ h s, fst p = VObj h ∧ heap w !! h = None ∧
                    heap w' = <[h := s]> (heap w) ∧ closed s = false
        else fst p = x ∧ heap w' = heap w
    | Raise _ => heap w' = heap w ∧ _is_string_or_bytes x = true
    end.
Proof.
  destruct (_is_string_or_bytes x) eqn:Hs.
  - rewrite get_filehandle_string by done.
    destruct (urlparse_scheme env x) as [scheme|e].
    2:{ intros [= <- <-]. by eexists. }
    destruct (in_http_set (py_version env) scheme).
    + destruct (session_get env x kwargs) as [req|e].
      2:{ intros [= <- <-]. by eexists. }
      destruct (raise_for_status env req).
      { intros [= <- <-]. by eexists. }
      intros [= <- <-]. eexists; repeat split; simpl; try done.
      do 2 eexists; repeat split; eauto using new_handle_fresh.
    + destruct (builtin_open env x args kwargs).
      { intros [= <- <-]. by eexists. }
      intros [= <- <-]. eexists; repeat split; simpl; try done.
      do 2 eexists; repeat split; eauto using new_handle_fresh.
  - rewrite get_filehandle_other by done.
    intros [= <- <-]. exists []. by rewrite app_nil_r.
Qed.

End Resolution.

(** *** Closing and scopes *)

Section Closing.

Context (env : Env).
Implicit Types (x fh : pyval) (args : list pyval) (kwargs : gmap string pyval).
Implicit Types (w : world) (body : scope_body) (hp : gmap handle stream).

Lemma close_log fh w : log (fst (close env fh w)) = log w ++ [EvClose fh].
Proof.
  unfold close, bind, emit; simpl.
  destruct fh as [| | | | | |h]; simpl; try done.
  destruct (heap w !! h) as [s|]; [destruct (close_error env s)|]; done.
Qed.

(** [close()] leaves every other stream alone. *)
Lemma close_frame fh w h :
  VObj h ≠ fh → heap (fst (close env fh w)) !! h = heap w !! h.
Proof.
  intros Hne. unfold close, bind, emit; simpl.
  destruct fh as [| | | | | |h']; simpl; try done.
  destruct (heap w !! h') as [s|]; [destruct (close_error env s)|]; simpl; try done;
    (rewrite lookup_insert_ne; [done|congruence]).
Qed.

Lemma close_refused_run fh w :
  close_refused env (heap w) fh = true →
  ∃ e, snd (close env fh w) = Raise e.
Proof.
  unfold close_refused, close, bind, emit; simpl.
  destruct fh as [| | | | | |h]; simpl; eauto.
  destruct (heap w !! h) as [s|]; [destruct (close_error env s)|]; simpl; eauto.
  done.
Qed.

Lemma close_accepted_run fh w :
  close_refused env (heap w) fh = false →
  is_closed (heap (fst (close env fh w))) fh = true ∧
  snd (close env fh w) = Ok tt.
Proof.
  unfold close_refused, close, bind, emit, is_closed; simpl.
  destruct fh as [| | | | | |h]; simpl; try done.
  destruct (heap w !! h) as [s|]; [destruct (close_error env s)|]; simpl; try done.
  by rewrite lookup_insert_eq.
Qed.

(** The run of a scope of [open_file], in terms of the resolution, the
    body and the [close()] call. *)
Lemma with_open_file_run x args kwargs body w :
  with_stmt (open_file env x args kwargs) body w =
  match _get_filehandle env x args kwargs w with
  | (w1, Raise e) => (w1, Raise e)
  | (w1, Ok (fh, own)) =>
      let wy := World (fst (body fh (heap w1))) (log w1 ++ [EvYield fh]) in
      let out := outcome (snd (body fh (heap w1))) in
      if own then
        match snd (close env fh wy) with
        | Raise e => (fst (close env fh wy), Raise e)
        | Ok _ => (fst (close env fh wy), out)
        end
      else (wy, out)
  end.
Proof.
  unfold with_stmt, open_file, bind.
  destruct (_get_filehandle env x args kwargs w) as [w1 [[fh own]|e]]; [|done].
  simpl. destruct (body fh (heap w1)) as [hp out]. simpl.
  destruct own; [|done].
  by destruct (close env fh _) as [w2 [[]|e]].
Qed.

End Closing.

(** *** [_get_filehandle] and [open_file] *)

Section OpenFile.

Context (env : Env).
Implicit Types (x fh : pyval) (args : list pyval) (kwargs : gmap string pyval).
Implicit Types (w : world) (body : scope_body).

Lemma get_filehandle_log_head x args kwargs w :
  _is_string_or_bytes x = true →
  ∃ evs, since w (fst (_get_filehandle env x args kwargs w)) = EvUrlparse x :: evs.
Proof.
  intros Hs. rewrite get_filehandle_string by done.
  destruct (urlparse_scheme env x) as [scheme|e];
    [destruct (in_http_set (py_version env) scheme);
     [destruct (session_get env x kwargs) as [req|e];
      [destruct (raise_for_status env req)|]
     |destruct (builtin_open env x args kwargs)]|];
    eexists; by apply since_app.
Qed.

(** The log of a scope that was entered: the resolution, the yield, and
    one [close()] call if the stream is owned. *)
Lemma open_file_scope_log x args kwargs body w w1 fh own :
  _get_filehandle env x args kwargs w = (w1, Ok (fh, own)) →
  log (fst (with_stmt (open_file env x args kwargs) body w)) =
  log w1 ++ EvYield fh :: (if own then [EvClose fh] else []).
Proof.
  intros E. rewrite with_open_file_run, E. simpl.
  destruct own; [|done].
  match goal with
  | |- context [close env fh ?wy] =>
      pose proof (close_log env fh wy) as Hl;
      destruct (close env fh wy) as [w2 [[]|e]]
  end; simpl in *; by rewrite Hl, <- app_assoc.
Qed.

(** The resolution of a string, call by call: one parse; then the one call
    the scheme asks for; then, when that call succeeded, a new stream made
    for this string, owned, and else its error with the store unchanged. *)
Lemma get_filehandle_resolves x args kwargs w :
  _is_string_or_bytes x = true →
  let '(w', r) := _get_filehandle env x args kwargs w in
  parse_events (since w w') = [x] ∧
  match urlparse_scheme env x with
  | Raise e => r = Raise e ∧ io_calls (since w w') = [] ∧ heap w' = heap w
  | Ok scheme =>
      let fetch := in_http_set (py_version env) scheme in
      io_calls (since w w') =
        [if fetch then EvGet x kwargs else EvOpen x args kwargs] ∧
      match (if fetch
             then match session_get env x kwargs with
                  | Raise e => Some e
                  | Ok resp => raise_for_status env resp
                  end
             else builtin_open env x args kwargs) with
      | Some e => r = Raise e ∧ heap w' = heap w
      | None =>
          ∃ h s, r = Ok (VObj h, true) ∧ heap w !! h = None ∧
                 heap w' = <[h := s]> (heap w) ∧
                 opened_for env x args kwargs s
      end
  end.
Proof.
  intros Hs. rewrite get_filehandle_string by done.
  unfold opened_for.
  destruct (urlparse_scheme env x) as [scheme|e].
  2:{ by erewrite since_app by (simpl; done). }
  cbv zeta. destruct (in_http_set (py_version env) scheme).
  - destruct (session_get env x kwargs) as [resp|e].
    + destruct (raise_for_status env resp) as [e|].
      * by erewrite since_app by (simpl; done).
      * erewrite since_app by (simpl; done). do 2 (split; [done|]).
        eexists _, _. split; [done|]. split; [apply new_handle_fresh|].
        split; [done|]. split; [done|]. by exists resp.
    + by erewrite since_app by (simpl; done).
  - destruct (builtin_open env x args kwargs) as [e|].
    + by erewrite since_app by (simpl; done).
    + erewrite since_app by (simpl; done). do 2 (split; [done|]).
      eexists _, _. split; [done|]. split; [apply new_handle_fresh|].
      by split.
Qed.

(** C1. [_get_filehandle] treats its input as a reference to resolve
    exactly when the input is a text or a byte string.  Then it parses it,
    once, and makes the one call the scheme asks for: the GET when the
    scheme is [http] or [https], [open] otherwise.  When that call (and,
    for a GET, the status check) succeeds, it returns with the ownership
    flag set a stream that did not exist before and is open: the file
    [open] gave for the string, or the in-memory stream over the body of
    the response.  When [urlparse] or that call fails, the error is raised
    and the store is unchanged.  Any other value comes back as it is, with
    the flag unset, and the world is left as it was: nothing is parsed,
    fetched or opened. *)
Theorem get_filehandle_classifies x args kwargs w :
  let '(w', r) := _get_filehandle env x args kwargs w in
  match x with
  | VText _ | VBytes _ =>
      _is_string_or_bytes x = true ∧
      parse_events (since w w') = [x] ∧
      match urlparse_scheme env x with
      | Raise e => r = Raise e ∧ io_calls (since w w') = [] ∧ heap w' = heap w
      | Ok scheme =>
          let fetch := in_http_set (py_version env) scheme in
          io_calls (since w w') =
            [if fetch then EvGet x kwargs else EvOpen x args kwargs] ∧
          match (if fetch
                 then match session_get env x kwargs with
                      | Raise e => Some e
                      | Ok resp => raise_for_status env resp
                      end
                 else builtin_open env x args kwargs) with
          | Some e => r = Raise e ∧ heap w' = heap w
          | None =>
              ∃ h s, r = Ok (VObj h, true) ∧ heap w !! h = None ∧
                     heap w' = <[h := s]> (heap w) ∧
                     opened_for env x args kwargs s
          end
      end
  | _ => _is_string_or_bytes x = false ∧ w' = w ∧ r = Ok (x, false)
  end.
Proof.
  destruct x as [| | |s|b| |];
    try (by rewrite get_filehandle_other by done).
  - pose proof (get_filehandle_resolves (VText s) args kwargs w eq_refl) as H.
    destruct (_get_filehandle env (VText s) args kwargs w) as [w' r].
    by split.
  - pose proof (get_filehandle_resolves (VBytes b) args kwargs w eq_refl) as H.
    destruct (_get_filehandle env (VBytes b) args kwargs w) as [w' r].
    by split.
Qed.

(** C3. A value that is neither a text nor a byte string is handed to
    the scope as it is; the only thing [open_file] does is yield it.
    After the scope the store is the one the body left: no [close()] is
    called, and the stream is closed only if the body closed it. *)
Theorem open_file_passes_stream_untouched x args kwargs body w :
  _is_string_or_bytes x = false →
  let '(hp, out) := body x (heap w) in
  let '(w', r) := with_stmt (open_file env x args kwargs) body w in
  w' = World hp (log w ++ [EvYield x]) ∧ r = outcome out ∧
  yield_events (since w w') = [x] ∧ close_events (since w w') = [] ∧
  is_closed (heap w') x = is_closed hp x.
Proof.
  intros Hs.
  rewrite with_open_file_run, get_filehandle_other by done.
  destruct (body x (heap w)) as [hp out]. simpl.
  repeat split; unfold since; simpl; by rewrite drop_app_length.
Qed.

(** C2. When the resolution succeeds, the scope is entered with the
    resolved stream, and whatever way the body ends, normally or by
    raising, [open_file] calls [close()] on an owned stream exactly once,
    after the body, and on nothing else; a stream it does not own gets no
    [close()] call.  Every other stream is as the body left it.  A
    [close()] that succeeds leaves the stream closed and the outcome of
    the body in place; a [close()] that raises makes the scope raise; a
    failure of the resolution is raised as it is. *)
Theorem open_file_closes_owned_once x args kwargs body w :
  match _get_filehandle env x args kwargs w with
  | (w1, Ok (fh, own)) =>
      let '(hp, out) := body fh (heap w1) in
      let '(w', r) := with_stmt (open_file env x args kwargs) body w in
      own = _is_string_or_bytes x ∧
      since w1 w' = EvYield fh :: (if own then [EvClose fh] else []) ∧
      close_events (since w w') = (if own then [fh] else []) ∧
      (∀ h, VObj h ≠ fh → heap w' !! h = hp !! h) ∧
      if own then
        if close_refused env hp fh
        then ∃ e, r = Raise e
        else is_closed (heap w') fh = true ∧ r = outcome out
      else heap w' = hp ∧ r = outcome out
  | (w1, Raise e) =>
      with_stmt (open_file env x args kwargs) body w = (w1, Raise e)
  end.
Proof.
  destruct (_get_filehandle env x args kwargs w) as [w1 [[fh own]|e]] eqn:E.
  2:{ by rewrite with_open_file_run, E. }
  pose proof (open_file_scope_log x args kwargs body w w1 fh own E) as Hlog'.
  pose proof E as Hinv.
  apply get_filehandle_inv in Hinv as (evs & Hlog & Hcl & _ & _ & Hown & _).
  simpl in Hown.
  rewrite with_open_file_run, E in *. simpl in *.
  destruct (body fh (heap w1)) as [hp out]. simpl in *.
  destruct own.
  - set (wy := World hp (log w1 ++ [EvYield fh])) in *.
    pose proof (close_frame env fh wy) as Hframe.
    pose proof (close_refused_run env fh wy) as Hno.
    pose proof (close_accepted_run env fh wy) as Hyes.
    destruct (close env fh wy) as [w2 r2]. simpl in *.
    assert (log w2 = log w1 ++ [EvYield fh; EvClose fh]) as Hl2
      by (by destruct r2).
    assert (since w1 w2 = [EvYield fh; EvClose fh]) as Hs1
      by (by apply since_app).
    assert (close_events (since w w2) = [fh]) as Hs2.
    { erewrite since_app by (rewrite Hl2, Hlog, <- app_assoc; done).
      by rewrite close_events_app, Hcl. }
    destruct (close_refused env hp fh).
    + destruct Hno as [e ->]; [done|]. eauto 10.
    + destruct Hyes as [Hc ->]; [done|]. simpl. eauto 10.
  - repeat split; eauto.
    + by apply since_app.
    + erewrite since_app by (simpl; rewrite Hlog, <- !app_assoc; done).
      by rewrite close_events_app, Hcl.
Qed.

End OpenFile.

(** *** URLs, paths and options *)

Section Branches.

Context (env : Env).
Implicit Types (x fh : pyval) (args : list pyval) (kwargs : gmap string pyval).
Implicit Types (w : world) (body : scope_body).

(** C4. For a string whose parsed scheme is [http] or [https] and whose
    GET returns a response: if [raise_for_status] rejects the status,
    [open_file] raises that error, nothing is yielded, no stream is
    created and the body does not run; otherwise the resolution creates
    an in-memory byte stream over the body of the response, owned, and
    that stream is what the scope is given. *)
Theorem open_file_http_status x args kwargs body w scheme resp :
  _is_string_or_bytes x = true →
  urlparse_scheme env x = Ok scheme →
  in_http_set (py_version env) scheme = true →
  session_get env x kwargs = Ok resp →
  let '(w', r) := with_stmt (open_file env x args kwargs) body w in
  match raise_for_status env resp with
  | Some e =>
      r = Raise e ∧ yield_events (since w w') = [] ∧
      w' = World (heap w)
             (log w ++ [EvUrlparse x; EvGet x kwargs; EvRaiseForStatus resp])
  | None =>
      let h := new_handle (heap w) in
      heap w !! h = None ∧
      _get_filehandle env x args kwargs w =
        (World (<[h := Stream (FromBytesIO (content resp)) false]> (heap w))
           (log w ++ [EvUrlparse x; EvGet x kwargs; EvRaiseForStatus resp;
                      EvBytesIO h]),
         Ok (VObj h, true)) ∧
      yield_events (since w w') = [VObj h] ∧
      close_events (since w w') = [VObj h]
  end.
Proof.
  intros Hs Hparse Hhttp Hget.
  pose proof (get_filehandle_string env x args kwargs w Hs) as E.
  rewrite Hparse, Hhttp, Hget in E.
  destruct (raise_for_status env resp) as [e|].
  - rewrite with_open_file_run, E. repeat split.
    erewrite since_app by (simpl; done). done.
  - pose proof (open_file_scope_log env x args kwargs body w _ _ _ E) as Hlog.
    destruct (with_stmt (open_file env x args kwargs) body w) as [w' r].
    simpl in *.
    split; [apply new_handle_fresh|]. split; [done|].
    erewrite since_app by (rewrite Hlog, <- app_assoc; done). done.
Qed.

(** C8. For a string that parses, one collaborator is called, once: when
    the scheme is [http] or [https], the session's [get], on the string
    and the keyword options (the positional ones are left out); else
    [open], on the string, the positional options and the keyword
    options, as they were given.  The result is the one of that call. *)
Theorem options_forwarded x args kwargs w scheme :
  _is_string_or_bytes x = true →
  urlparse_scheme env x = Ok scheme →
  let '(w', r) := _get_filehandle env x args kwargs w in
  if in_http_set (py_version env) scheme then
    io_calls (since w w') = [EvGet x kwargs] ∧
    match session_get env x kwargs with
    | Raise e => r = Raise e
    | Ok resp =>
        match raise_for_status env resp with
        | Some e => r = Raise e
        | None =>
            ∃ h, r = Ok (VObj h, true) ∧
                 heap w' !! h = Some (Stream (FromBytesIO (content resp)) false)
        end
    end
  else
    io_calls (since w w') = [EvOpen x args kwargs] ∧
    match builtin_open env x args kwargs with
    | Some e => r = Raise e
    | None =>
        ∃ h, r = Ok (VObj h, true) ∧
             heap w' !! h = Some (Stream (FromOpen x args kwargs) false)
    end.
Proof.
  intros Hs Hparse.
  rewrite get_filehandle_string by done. rewrite Hparse.
  destruct (in_http_set (py_version env) scheme).
  - destruct (session_get env x kwargs) as [resp|e];
      [destruct (raise_for_status env resp)|];
      (split; [by erewrite since_app by (simpl; done)|]); try done.
    eexists. split; [done|]. simpl. by rewrite lookup_insert_eq.
  - destruct (builtin_open env x args kwargs);
      (split; [by erewrite since_app by (simpl; done)|]); try done.
    eexists. split; [done|]. simpl. by rewrite lookup_insert_eq.
Qed.

(** On Python 3 a byte string is never equal to a text literal, so the
    scheme of a byte string is never found in the set. *)
Lemma in_http_set_bytes_py3 (b : list byte) : in_http_set Py3 (VBytes b) = false.
Proof. reflexivity. Qed.

Lemma in_http_set_bytes_py2 (b : list byte) :
  in_http_set Py2 (VBytes b) = in_http_set Py2 (VText (string_of_list_byte b)).
Proof. reflexivity. Qed.

End Branches.

(** *** [open_files] *)

Section OpenFiles.

Context (env : Env) (args : list pyval) (kwargs : gmap string pyval).
Implicit Types (x fh : pyval) (w : world) (body : scope_body).
Implicit Types (hp : gmap handle stream) (pairs : list (pyval * bool)).

Lemma resolve_each_cons x l w :
  resolve_each env args kwargs (x :: l) w =
  match _get_filehandle env x args kwargs w with
  | (wa, Raise e) => (wa, Raise e)
  | (wa, Ok p) =>
      match resolve_each env args kwargs l wa with
      | (w1, Raise e) => (w1, Raise e)
      | (w1, Ok ps) => (w1, Ok (p :: ps))
      end
  end.
Proof.
  unfold resolve_each; simpl. unfold bind, ret.
  destruct (_get_filehandle env x args kwargs w) as [wa [p|e]]; [|done].
  by destruct (list_comprehension _ l wa) as [w1 [ps|e]].
Qed.

Lemma owned_cons_elem fh (own : bool) pairs fh' :
  fh' ∈ owned ((fh, own) :: pairs) ↔ (own = true ∧ fh' = fh) ∨ fh' ∈ owned pairs.
Proof.
  destruct own; simpl.
  - rewrite elem_of_cons. split.
    + intros [->|Hin]; [by left|by right].
    + intros [[_ ->]|Hin]; [by left|by right].
  - split; [by right|]. by intros [[? _]|Hin].
Qed.

(** A resolution of a whole list: the log only grows, by one parse per
    string; each input is resolved at its position; the owned streams are
    new, open and pairwise different; nothing else in the store moves. *)
Lemma resolve_each_inv l : ∀ w w1 pairs,
  resolve_each env args kwargs l w = (w1, Ok pairs) →
  (∃ evs, log w1 = log w ++ evs ∧ close_events evs = [] ∧ yield_events evs = [] ∧
          parse_events evs = List.filter _is_string_or_bytes l) ∧
  Forall2 (resolves_to (heap w)) l pairs ∧
  (∀ fh, fh ∈ owned pairs →
     ∃ h s, fh = VObj h ∧ heap w !! h = None ∧
            heap w1 !! h = Some s ∧ closed s = false) ∧
  NoDup (owned pairs) ∧
  (∀ h, VObj h ∉ owned pairs → heap w1 !! h = heap w !! h).
Proof.
  induction l as [|x l IH]; intros w w1 pairs E.
  - injection E as <- <-. repeat split; simpl.
    + exists []. by rewrite app_nil_r.
    + constructor.
    + intros fh Hin. by apply elem_of_nil in Hin.
    + constructor.
  - rewrite resolve_each_cons in E.
    destruct (_get_filehandle env x args kwargs w) as [wa [p|e]] eqn:E1; [|done].
    destruct (resolve_each env args kwargs l wa) as [wb [ps|e]] eqn:E2; [|done].
    injection E as <- <-.
    apply get_filehandle_inv in E1 as (evs1 & Hl1 & Hc1 & Hy1 & Hp1 & Hown & Hptr).
    apply IH in E2 as ((evs2 & Hl2 & Hc2 & Hy2 & Hp2) & Hall & Hnew & Hnd & Hfr).
    destruct p as [fh own]; simpl in *.
    (* every stream of the store before is untouched by the first step *)
    assert (∀ h, heap w !! h = None ∨ heap wa !! h = heap w !! h) as Hmono.
    { intros h. destruct own.
      - destruct Hptr as (h0 & s0 & _ & Hf & -> & _).
        destruct (decide (h0 = h)) as [->|Hne]; [by left|].
        right. by rewrite lookup_insert_ne.
      - right. by destruct Hptr as [_ ->]. }
    assert (∀ h, heap wa !! h = None → heap w !! h = None) as Hback.
    { intros h Hn. destruct (Hmono h) as [|Heq]; [done|]. by rewrite <- Heq. }
    repeat split.
    + exists (evs1 ++ evs2). rewrite Hl2, Hl1, app_assoc.
      rewrite close_events_app, yield_events_app, parse_events_app.
      rewrite Hc1, Hc2, Hy1, Hy2, Hp1, Hp2.
      repeat split. by destruct (_is_string_or_bytes x).
    + constructor.
      * split; [done|]. simpl. destruct own; [|by destruct Hptr].
        destruct Hptr as (h & s & -> & Hf & _). eauto.
      * eapply Forall2_impl; [exact Hall|].
        intros y [fy oy] [Ho Hr]. split; [done|]. simpl in *.
        destruct oy; [|done]. destruct Hr as (h & -> & Hn). eauto.
    + intros fh' Hin. apply owned_cons_elem in Hin as [[-> ->]|Hin].
      * destruct Hptr as (h & s & -> & Hf & Hhp & Hop).
        exists h, s. repeat split; try done.
        rewrite Hfr, Hhp; [by rewrite lookup_insert_eq|].
        intros Hin. apply Hnew in Hin as (h' & s' & [= <-] & Hn & _).
        by rewrite Hhp, lookup_insert_eq in Hn.
      * apply Hnew in Hin as (h & s & -> & Hn & Hs & Hop).
        exists h, s. eauto.
    + destruct own; [|done]. simpl. constructor; [|done].
      intros Hin. apply Hnew in Hin as (h' & s' & -> & Hn & _).
      destruct Hptr as (h & s & [= <-] & _ & Hhp & _).
      by rewrite Hhp, lookup_insert_eq in Hn.
    + intros h Hnin. rewrite Hfr.
      * destruct own; [|by destruct Hptr as [_ ->]].
        destruct Hptr as (h0 & s0 & -> & _ & -> & _).
        rewrite lookup_insert_ne; [done|].
        intros ->. apply Hnin. simpl. by left.
      * intros Hin. apply Hnin. apply owned_cons_elem. by right.
Qed.

Lemma zip_fst_snd_pairs pairs : zip (map fst pairs) (map snd pairs) = pairs.
Proof. induction pairs as [|[fh own] pairs IH]; simpl; by rewrite ?IH. Qed.

(** The run of a scope of [open_files], in terms of the resolution, the
    body and the loop of [close()] calls. *)
Lemma with_open_files_run l body w :
  with_stmt (open_files env l args kwargs) body w =
  match resolve_each env args kwargs l w with
  | (w1, Raise e) => (w1, Raise e)
  | (w1, Ok []) => (w1, Raise ValueError)
  | (w1, Ok pairs) =>
      let fhs := VTuple (map fst pairs) in
      let wy := World (fst (body fhs (heap w1))) (log w1 ++ [EvYield fhs]) in
      match snd (close_owned env pairs wy) with
      | Raise e => (fst (close_owned env pairs wy), Raise e)
      | Ok _ => (fst (close_owned env pairs wy), outcome (snd (body fhs (heap w1))))
      end
  end.
Proof.
  unfold with_stmt, open_files, bind.
  destruct (resolve_each env args kwargs l w) as [w1 [pairs|e]]; [|done].
  destruct pairs as [|p pairs]; [done|].
  unfold lift, zip_star, unpack2, try_yield_finally, bind, emit, ret.
  cbn [fst snd yielded cleanup heap log].
  rewrite zip_fst_snd_pairs.
  destruct (body _ (heap w1)) as [hp out]. cbn [fst snd].
  by destruct (close_owned env (p :: pairs) _) as [w2 [[]|e]].
Qed.

Lemma close_owned_cons fh (own : bool) pairs w :
  close_owned env ((fh, own) :: pairs) w =
  if own then
    match close env fh w with
    | (wa, Raise e) => (wa, Raise e)
    | (wa, Ok _) => close_owned env pairs wa
    end
  else close_owned env pairs w.
Proof. simpl. unfold bind at 1. destruct own; [|done]. done. Qed.

Lemma close_refused_frame fh w fh' :
  fh' ≠ fh →
  close_refused env (heap (fst (close env fh w))) fh' = close_refused env (heap w) fh'.
Proof.
  intros Hne. destruct fh' as [| | | | | |h]; try done.
  simpl. by rewrite close_frame.
Qed.

Lemma attempted_ext hp1 hp2 (l : list pyval) :
  (∀ fh, fh ∈ l → close_refused env hp1 fh = close_refused env hp2 fh) →
  attempted env hp1 l = attempted env hp2 l ∧
  existsb (close_refused env hp1) l = existsb (close_refused env hp2) l.
Proof.
  induction l as [|fh l IH]; intros Hag; [done|]. simpl.
  rewrite (Hag fh) by (by left).
  destruct IH as [-> ->]; [|done].
  intros fh' Hin. apply Hag. by right.
Qed.

(** The loop of [close()] calls over pairwise different owned streams:
    it calls [close()] on the owned streams in order and stops at the
    first one that refuses; it touches no other stream; if none refuses
    it ends normally and all of them are closed. *)
Lemma close_owned_run pairs : ∀ w,
  NoDup (owned pairs) →
  log (fst (close_owned env pairs w)) =
    log w ++ map EvClose (attempted env (heap w) (owned pairs)) ∧
  (∀ h, VObj h ∉ owned pairs →
        heap (fst (close_owned env pairs w)) !! h = heap w !! h) ∧
  if existsb (close_refused env (heap w)) (owned pairs)
  then ∃ e, snd (close_owned env pairs w) = Raise e
  else snd (close_owned env pairs w) = Ok tt ∧
       Forall (fun fh => is_closed (heap (fst (close_owned env pairs w))) fh = true)
              (owned pairs).
Proof.
  induction pairs as [|[fh own] pairs IH]; intros w Hnd.
  { simpl. rewrite app_nil_r. repeat split. constructor. }
  rewrite close_owned_cons. destruct own; [|by apply IH].
  simpl in Hnd. apply NoDup_cons in Hnd as [Hnin Hnd].
  cbn [owned attempted existsb].
  pose proof (close_log env fh w) as Hlog.
  pose proof (close_frame env fh w) as Hframe.
  pose proof (close_refused_run env fh w) as Hno.
  pose proof (close_accepted_run env fh w) as Hyes.
  pose proof (close_refused_frame fh w) as Hrf.
  destruct (close env fh w) as [wa ra]. cbn [fst snd] in *.
  destruct (close_refused env (heap w) fh).
  - destruct Hno as [e ->]; [done|]. cbn [fst snd orb].
    repeat split; [done| |by eexists].
    intros h Hh. apply Hframe. intros <-. apply Hh. by left.
  - destruct Hyes as [Hc ->]; [done|]. cbn [orb].
    destruct (attempted_ext (heap wa) (heap w) (owned pairs)) as [Hat Hex].
    { intros fh' Hin. apply Hrf. by intros ->. }
    destruct (IH wa Hnd) as (Hl & Hfr & Hres).
    rewrite Hat, Hex in *.
    split; [by rewrite Hl, Hlog, <- app_assoc|]. split.
    + intros h Hh. rewrite Hfr, Hframe; [done| |].
      * intros <-. apply Hh. by left.
      * intros Hin. apply Hh. by right.
    + destruct (existsb (close_refused env (heap w)) (owned pairs)); [done|].
      destruct Hres as [Hok Hall]. split; [done|]. constructor; [|done].
      destruct fh as [| | | | | |h]; try done.
      unfold is_closed in *. by rewrite Hfr.
Qed.

Lemma attempted_all hp (l : list pyval) :
  existsb (close_refused env hp) l = false → attempted env hp l = l.
Proof.
  induction l as [|fh l IH]; [done|]. simpl.
  destruct (close_refused env hp fh); [done|]. simpl.
  intros H. by rewrite IH.
Qed.

Lemma events_of_closes (l : list pyval) :
  close_events (map EvClose l) = l ∧ yield_events (map EvClose l) = [] ∧
  parse_events (map EvClose l) = [].
Proof.
  induction l as [|fh l (IH1 & IH2 & IH3)]; [done|].
  simpl. by rewrite IH1.
Qed.

Lemma resolve_each_app_fail pre x post : ∀ w wk pairs w1 e,
  resolve_each env args kwargs pre w = (wk, Ok pairs) →
  _get_filehandle env x args kwargs wk = (w1, Raise e) →
  resolve_each env args kwargs (pre ++ x :: post) w = (w1, Raise e).
Proof.
  induction pre as [|y pre IH]; intros w wk pairs w1 e Hpre Hx.
  - injection Hpre as <- <-. simpl. by rewrite resolve_each_cons, Hx.
  - simpl. rewrite resolve_each_cons in *.
    destruct (_get_filehandle env y args kwargs w) as [wa [p|e']]; [|done].
    destruct (resolve_each env args kwargs pre wa) as [wb [ps|e']] eqn:E; [|done].
    injection Hpre as <- <-.
    by rewrite (IH wa wb ps w1 e).
Qed.

(** A resolution keeps the streams of the store. *)
Lemma get_filehandle_mono x w w' r h s :
  _get_filehandle env x args kwargs w = (w', r) →
  heap w !! h = Some s → heap w' !! h = Some s.
Proof.
  intros E Hs.
  apply get_filehandle_inv in E as (_ & _ & _ & _ & _ & Hr).
  destruct r as [[fh own]|e]; simpl in Hr.
  - destruct Hr as [_ Hr]. destruct own.
    + destruct Hr as (h0 & s0 & _ & Hf & -> & _).
      rewrite lookup_insert_ne; [done|]. intros ->. by rewrite Hf in Hs.
    + by destruct Hr as [_ ->].
  - by destruct Hr as [-> _].
Qed.

Lemma resolve_each_mono l : ∀ w w1 pairs h s,
  resolve_each env args kwargs l w = (w1, Ok pairs) →
  heap w !! h = Some s → heap w1 !! h = Some s.
Proof.
  induction l as [|x l IH]; intros w w1 pairs h s E Hs.
  - by injection E as <- <-.
  - rewrite resolve_each_cons in E.
    destruct (_get_filehandle env x args kwargs w) as [wa [p|e]] eqn:E1; [|done].
    destruct (resolve_each env args kwargs l wa) as [wb [ps|e]] eqn:E2; [|done].
    injection E as <- <-.
    eapply IH; [exact E2|]. by eapply get_filehandle_mono.
Qed.

(** An owned result is a new stream, the one made for the string. *)
Lemma get_filehandle_opened x w w' fh :
  _get_filehandle env x args kwargs w = (w', Ok (fh, true)) →
  ∃ h s, fh = VObj h ∧ heap w !! h = None ∧
         heap w' = <[h := s]> (heap w) ∧ opened_for env x args kwargs s.
Proof.
  intros E.
  pose proof (get_filehandle_inv _ _ _ _ _ _ _ E) as (_ & _ & _ & _ & _ & Hown & _).
  simpl in Hown.
  pose proof (get_filehandle_resolves env x args kwargs w (eq_sym Hown)) as H.
  rewrite E in H. destruct H as [_ H].
  destruct (urlparse_scheme env x) as [scheme|e0]; [|by destruct H].
  cbv zeta in H. destruct H as [_ H].
  destruct (if in_http_set (py_version env) scheme then _ else _) as [e0|];
    [by destruct H|].
  destruct H as (h & s & [= ->] & Hf & Hhp & Hop). by exists h, s.
Qed.

(** Position for position: the pair at a position is the result of the
    resolution of the input at that position, and a string is resolved
    into the stream made for it. *)
Lemma resolve_each_resolved_as l : ∀ w w1 pairs,
  resolve_each env args kwargs l w = (w1, Ok pairs) →
  Forall2 (resolved_as env args kwargs (heap w) (heap w1)) l pairs.
Proof.
  induction l as [|x l IH]; intros w w1 pairs E.
  - injection E as <- <-. constructor.
  - rewrite resolve_each_cons in E.
    destruct (_get_filehandle env x args kwargs w) as [wa [[fh own]|e]] eqn:E1;
      [|done].
    destruct (resolve_each env args kwargs l wa) as [wb [ps|e]] eqn:E2; [|done].
    injection E as <- <-.
    pose proof (get_filehandle_inv _ _ _ _ _ _ _ E1)
      as (_ & _ & _ & _ & _ & Hown & Hptr).
    simpl in Hown, Hptr. constructor.
    + split; [done|]. simpl. destruct own; [|by destruct Hptr].
      apply get_filehandle_opened in E1 as (h & s & -> & Hf & Hhp & Hop).
      exists h, s. split; [done|]. split; [done|]. split; [|done].
      eapply resolve_each_mono; [exact E2|]. by rewrite Hhp, lookup_insert_eq.
    + eapply Forall2_impl; [by apply IH|].
      intros y [fy oy] [Ho Hr]. split; [done|]. simpl in *.
      destruct oy; [|done]. destruct Hr as (h & s & -> & Hn & Hs & Hop).
      exists h, s. split; [done|]. split; [|done].
      destruct (heap w !! h) as [s'|] eqn:Hw; [|done].
      by rewrite (get_filehandle_mono _ _ _ _ _ _ E1 Hw) in Hn.
Qed.

(** Each element is resolved by a call of its own, made after the elements
    before it have been resolved, and its result is at its position. *)
Lemma resolve_each_positions l : ∀ w w1 pairs,
  resolve_each env args kwargs l w = (w1, Ok pairs) →
  ∀ i x, l !! i = Some x →
    ∃ wi wi' p,
      resolve_each env args kwargs (take i l) w = (wi, Ok (take i pairs)) ∧
      _get_filehandle env x args kwargs wi = (wi', Ok p) ∧
      pairs !! i = Some p.
Proof.
  induction l as [|y l IH]; intros w w1 pairs E i x Hi; [done|].
  rewrite resolve_each_cons in E.
  destruct (_get_filehandle env y args kwargs w) as [wa [p|e]] eqn:E1; [|done].
  destruct (resolve_each env args kwargs l wa) as [wb [ps|e]] eqn:E2; [|done].
  injection E as <- <-.
  destruct i as [|i]; simpl in Hi.
  - injection Hi as <-. by exists w, wa, p.
  - destruct (IH _ _ _ E2 i x Hi) as (wi & wi' & q & Htake & Hq & Hps).
    exists wi, wi', q. repeat split; try done.
    cbn [take]. by rewrite resolve_each_cons, E1, Htake.
Qed.

(** C5, as the code has it. For a list that is not empty and whose
    elements all resolve: the result at each position is the one of the
    resolution of the input at that position, by a call of its own made
    after the elements before it have been resolved (a string into the
    stream made for it, which did not exist before and is open when the
    body starts, any other value into itself), one parse per string and in
    input order; duplicates give different streams; the scope is given the
    tuple of the streams in input order; at scope exit [close()] is called
    on the owned streams in that order, up to and including the first one
    that refuses to close, and no stream that is not owned is touched.
    When none refuses, exactly the owned streams are closed and the
    outcome of the body stands. *)
Theorem open_files_order_and_release fp_list body w w1 pairs :
  fp_list ≠ [] →
  resolve_each env args kwargs fp_list w = (w1, Ok pairs) →
  let fhs := VTuple (map fst pairs) in
  let '(hp, out) := body fhs (heap w1) in
  let '(w', r) := with_stmt (open_files env fp_list args kwargs) body w in
  Forall2 (resolved_as env args kwargs (heap w) (heap w1)) fp_list pairs ∧
  (∀ i x, fp_list !! i = Some x →
     ∃ wi wi' p,
       resolve_each env args kwargs (take i fp_list) w = (wi, Ok (take i pairs)) ∧
       _get_filehandle env x args kwargs wi = (wi', Ok p) ∧
       pairs !! i = Some p) ∧
  NoDup (owned pairs) ∧
  parse_events (since w w') = List.filter _is_string_or_bytes fp_list ∧
  yield_events (since w w') = [fhs] ∧
  close_events (since w w') = attempted env hp (owned pairs) ∧
  since w1 w' = EvYield fhs :: map EvClose (attempted env hp (owned pairs)) ∧
  (∀ h, VObj h ∉ owned pairs → heap w' !! h = hp !! h) ∧
  if existsb (close_refused env hp) (owned pairs)
  then ∃ e, r = Raise e
  else r = outcome out ∧
       close_events (since w w') = owned pairs ∧
       Forall (fun fh => is_closed (heap w') fh = true) (owned pairs).
Proof.
  intros Hne E. cbv zeta.
  pose proof (resolve_each_inv _ _ _ _ E)
    as ((evs & Hlog & Hcl & Hyl & Hpa) & Hall & _ & Hnd & _).
  pose proof (resolve_each_resolved_as _ _ _ _ E) as Hres_as.
  pose proof (resolve_each_positions _ _ _ _ E) as Hpos.
  rewrite with_open_files_run, E.
  destruct pairs as [|p pairs].
  { apply Forall2_nil_inv_r in Hall. done. }
  set (ps := p :: pairs) in *. cbv zeta.
  destruct (body (VTuple (map fst ps)) (heap w1)) as [hp out]. cbn [fst snd].
  set (wy := World hp (log w1 ++ [EvYield (VTuple (map fst ps))])).
  destruct (close_owned_run ps wy Hnd) as (Hl & Hfr & Hres).
  subst wy. cbn [heap log] in Hl, Hfr, Hres.
  destruct (events_of_closes (attempted env hp (owned ps))) as (Hc1 & Hc2 & Hc3).
  set (w2 := fst (close_owned env ps _)) in *.
  assert (since w1 w2 =
          EvYield (VTuple (map fst ps)) :: map EvClose (attempted env hp (owned ps)))
    as Hs1 by (apply since_app; by rewrite Hl, <- app_assoc).
  assert (since w w2 =
          evs ++ EvYield (VTuple (map fst ps)) ::
                 map EvClose (attempted env hp (owned ps))) as Hs.
  { apply since_app. by rewrite Hl, Hlog, <- !app_assoc. }
  assert (parse_events (since w w2) = List.filter _is_string_or_bytes fp_list
          ∧ yield_events (since w w2) = [VTuple (map fst ps)]
          ∧ close_events (since w w2) = attempted env hp (owned ps))
    as (Hev1 & Hev2 & Hev3).
  { rewrite Hs, parse_events_app, yield_events_app, close_events_app.
    cbn [parse_events yield_events close_events].
    rewrite Hc1, Hc2, Hc3, Hcl, Hyl, Hpa. by rewrite app_nil_r. }
  destruct (existsb (close_refused env hp) (owned ps)) eqn:Hex.
  - destruct Hres as [e ->]. repeat split; eauto.
  - destruct Hres as [-> Hclosed].
    repeat split; try done.
    by rewrite Hev3, attempted_all.
Qed.


(** C10. On an empty list [open_files] raises [ValueError] while it
    unpacks the resolved pairs: nothing is yielded, the body does not
    run, and the world is left as it was. *)
Theorem open_files_empty_raises body w :
  with_stmt (open_files env [] args kwargs) body w = (w, Raise ValueError) ∧
  unpack2 (zip_star []) = Raise ValueError.
Proof. done. Qed.

End OpenFiles.

(** *** Two scopes on the same path *)

Section TwoScopes.

Context (env : Env).
Implicit Types (x fh : pyval) (args : list pyval) (kwargs : gmap string pyval).
Implicit Types (w : world) (body : scope_body).

(** Leaving a scope of [open_file] changes no stream but the one the
    scope was given. *)
Lemma open_file_scope_frame x args kwargs body w w1 fh own h :
  _get_filehandle env x args kwargs w = (w1, Ok (fh, own)) →
  VObj h ≠ fh →
  heap (fst (with_stmt (open_file env x args kwargs) body w)) !! h =
  fst (body fh (heap w1)) !! h.
Proof.
  intros E Hne. rewrite with_open_file_run, E. cbv zeta.
  destruct own; [|done].
  match goal with
  | |- context [close env fh ?wy] =>
      pose proof (close_frame env fh wy h Hne) as Hf;
      destruct (close env fh wy) as [w2 [[]|e]]
  end; done.
Qed.

(** C9. The same path opened in two scopes, the second one entered
    while the stream of the first exists (inside the first scope or after
    it): each resolution gives a stream that did not exist when it was
    made, so the two streams differ; the second resolution leaves the
    first stream as it was; and leaving either scope changes no stream but
    the one that scope opened, so the stream of the other scope is as the
    body left it. *)
Theorem same_path_scopes_independent p args kwargs body1 body2 w w' wa h1 wb h2 :
  _get_filehandle env p args kwargs w = (wa, Ok (VObj h1, true)) →
  _get_filehandle env p args kwargs w' = (wb, Ok (VObj h2, true)) →
  is_Some (heap w' !! h1) →
  h1 ≠ h2 ∧ heap w !! h1 = None ∧ heap w' !! h2 = None ∧
  heap wb !! h1 = heap w' !! h1 ∧
  heap (fst (with_stmt (open_file env p args kwargs) body2 w')) !! h1 =
    fst (body2 (VObj h2) (heap wb)) !! h1 ∧
  heap (fst (with_stmt (open_file env p args kwargs) body1 w)) !! h2 =
    fst (body1 (VObj h1) (heap wa)) !! h2.
Proof.
intros E1 E2 [s1 Hs1].
pose proof (get_filehandle_inv _ _ _ _ _ _ _ E1) as (_ & _ & _ & _ & _ & _ & Hr1).
pose proof (get_filehandle_inv _ _ _ _ _ _ _ E2) as (_ & _ & _ & _ & _ & _ & Hr2).
simpl in Hr1, Hr2.
destruct Hr1 as (h & s & [= <-] & Hf1 & Hhp1 & _).
destruct Hr2 as (h & s' & [= <-] & Hf2 & Hhp2 & _).
assert (h1 ≠ h2) as Hne by (intros ->; by rewrite Hf2 in Hs1).
repeat split; try done.
- rewrite Hhp2. by rewrite lookup_insert_ne.
- apply (open_file_scope_frame _ _ _ _ _ _ _ _ _ E2). congruence.
- apply (open_file_scope_frame _ _ _ _ _ _ _ _ _ E1). congruence.
Qed.

End TwoScopes.

(** ** Runs in the sample environment *)

Section Runs.

Import Sample.

(** C7. On Python 3 the byte string [b'http://example.com/seqs.fasta']
    is handed to [open] as a path, which fails, while the same characters
    as a text string are fetched with a GET; on Python 2 the byte string
    is fetched as well. *)
Theorem bytes_url_opened_as_path_on_py3 :
  _is_string_or_bytes url_bytes = true ∧
  urlparse_scheme (env Py3) url_bytes = Ok (VBytes (list_byte_of_string "http")) ∧
  io_calls (log (fst (_get_filehandle (env Py3) url_bytes [] ∅ w0)))
    = [EvOpen url_bytes [] ∅] ∧
  snd (_get_filehandle (env Py3) url_bytes [] ∅ w0) = Raise FileNotFoundError ∧
  io_calls (log (fst (_get_filehandle (env Py3) (VText url_ok) [] ∅ w0)))
    = [EvGet (VText url_ok) ∅] ∧
  snd (_get_filehandle (env Py3) (VText url_ok) [] ∅ w0) = Ok (VObj 1, true) ∧
  io_calls (log (fst (_get_filehandle (env Py2) url_bytes [] ∅ w0)))
    = [EvGet url_bytes ∅].
Proof. repeat split; vm_compute; reflexivity. Qed.

(** The reading [yields_all_closes_owned] fails on the empty list, where
    nothing is yielded, and on two files the first of which refuses to
    close, where the second one gets no [close()] call. *)
Lemma open_files_release_counterexample :
  ¬ yields_all_closes_owned (env Py3) [] [] ∅ idle w0 ∧
  ¬ yields_all_closes_owned env_stuck [a_txt; b_txt] [VText "w"] ∅ idle w0.
Proof.
  split; intros H.
  - specialize (H w0 [] eq_refl). by destruct H as [H _].
  - specialize (H (fst (resolve_each env_stuck [VText "w"] ∅ [a_txt; b_txt] w0))
                  [(VObj 1, true); (VObj 2, true)]).
    destruct H as [_ H]; [vm_compute; reflexivity|].
    vm_compute in H. discriminate H.
Qed.


(** A stream of the caller goes through a scope untouched. *)
Lemma open_file_passes_stream_untouched_witness :
  _is_string_or_bytes (VObj 7) = false ∧
  with_stmt (open_file (env Py3) (VObj 7) [] ∅) idle w1 =
    (World (heap w1) [EvYield (VObj 7)], Ok tt).
Proof.
  split; [reflexivity|].
  pose proof (open_file_passes_stream_untouched (env Py3) (VObj 7) [] ∅ idle w1
                eq_refl) as H.
  unfold idle in H at 1. cbv beta iota in H.
  destruct (with_stmt _ _ _) as [w' r].
  destruct H as (-> & -> & _). reflexivity.
Defined.

(** A URL that answers 404 raises before anything is yielded. *)
Lemma open_file_http_status_witness :
  _is_string_or_bytes (VText url_missing) = true ∧
  urlparse_scheme (env Py3) (VText url_missing) = Ok (VText "http") ∧
  in_http_set (py_version (env Py3)) (VText "http") = true ∧
  session_get (env Py3) (VText url_missing) ∅ = Ok (Response 404 []) ∧
  snd (with_stmt (open_file (env Py3) (VText url_missing) [] ∅) idle w0) =
    Raise (HTTPError 404).
Proof.
  assert (urlparse_scheme (env Py3) (VText url_missing) = Ok (VText "http"))
    as Hp by (vm_compute; reflexivity).
  assert (session_get (env Py3) (VText url_missing) ∅ = Ok (Response 404 []))
    as Hg by (vm_compute; reflexivity).
  split; [reflexivity|]. split; [exact Hp|].
  split; [reflexivity|]. split; [exact Hg|].
  pose proof (open_file_http_status (env Py3) (VText url_missing) [] ∅ idle w0
                (VText "http") (Response 404 []) eq_refl Hp eq_refl Hg) as H.
  destruct (with_stmt _ _ _) as [w' r].
  cbn in H. destruct H as (-> & _). reflexivity.
Defined.

(** A path is opened with the positional and the keyword options. *)
Lemma options_forwarded_witness :
  _is_string_or_bytes a_txt = true ∧
  urlparse_scheme (env Py3) a_txt = Ok (VText "") ∧
  io_calls (since w0 (fst (_get_filehandle (env Py3) a_txt [VText "r"] ∅ w0))) =
    [EvOpen a_txt [VText "r"] ∅].
Proof.
  assert (urlparse_scheme (env Py3) a_txt = Ok (VText "")) as Hp
    by (vm_compute; reflexivity).
  split; [reflexivity|]. split; [exact Hp|].
  pose proof (options_forwarded (env Py3) a_txt [VText "r"] ∅ w0 (VText "")
                eq_refl Hp) as H.
  destruct (_get_filehandle _ _ _ _ _) as [w' r].
  cbn in H. exact (proj1 H).
Defined.

(** Two scopes on the same file, one after the other: the second one
    leaves the stream of the first, closed by then, as it is. *)
Lemma same_path_scopes_independent_witness :
  let w' := fst (with_stmt (open_file (env Py3) a_txt [] ∅) idle w0) in
  _get_filehandle (env Py3) a_txt [] ∅ w0 =
    (fst (_get_filehandle (env Py3) a_txt [] ∅ w0), Ok (VObj 1, true)) ∧
  _get_filehandle (env Py3) a_txt [] ∅ w' =
    (fst (_get_filehandle (env Py3) a_txt [] ∅ w'), Ok (VObj 2, true)) ∧
  is_Some (heap w' !! 1) ∧
  1 ≠ 2 ∧
  heap (fst (with_stmt (open_file (env Py3) a_txt [] ∅) idle w')) !! 1 =
    heap (fst (_get_filehandle (env Py3) a_txt [] ∅ w')) !! 1.
Proof.
intros w'.
assert (_get_filehandle (env Py3) a_txt [] ∅ w0 =
          (fst (_get_filehandle (env Py3) a_txt [] ∅ w0), Ok (VObj 1, true)))
  as E1 by (vm_compute; reflexivity).
assert (_get_filehandle (env Py3) a_txt [] ∅ w' =
          (fst (_get_filehandle (env Py3) a_txt [] ∅ w'), Ok (VObj 2, true)))
  as E2 by (vm_compute; reflexivity).
assert (is_Some (heap w' !! 1)) as Hlive by (vm_compute; eauto).
split; [exact E1|]. split; [exact E2|]. split; [exact Hlive|].
pose proof (same_path_scopes_independent (env Py3) a_txt [] ∅ idle idle w0 w'
              _ 1 _ 2 E1 E2 Hlive) as H.
destruct H as (Hne & _ & _ & _ & H & _).
split; [exact Hne|exact H].
Defined.

(** Two paths, one of them twice, and a stream of the caller. *)
Lemma open_files_order_and_release_witness :
  [a_txt; a_txt; VObj 7] ≠ [] ∧
  resolve_each (env Py3) [VText "r"] ∅ [a_txt; a_txt; VObj 7] w1 =
    (fst (resolve_each (env Py3) [VText "r"] ∅ [a_txt; a_txt; VObj 7] w1),
     Ok [(VObj 8, true); (VObj 9, true); (VObj 7, false)]) ∧
  close_events
    (since w1 (fst (with_stmt (open_files (env Py3) [a_txt; a_txt; VObj 7]
                                 [VText "r"] ∅) idle w1))) =
    [VObj 8; VObj 9].
Proof.
  assert (resolve_each (env Py3) [VText "r"] ∅ [a_txt; a_txt; VObj 7] w1 =
    (fst (resolve_each (env Py3) [VText "r"] ∅ [a_txt; a_txt; VObj 7] w1),
     Ok [(VObj 8, true); (VObj 9, true); (VObj 7, false)])) as E
    by (vm_compute; reflexivity).
  assert ([a_txt; a_txt; VObj 7] ≠ []) as Hne by discriminate.
  split; [exact Hne|]. split; [exact E|].
  pose proof (open_files_order_and_release (env Py3) [VText "r"] ∅
                [a_txt; a_txt; VObj 7] idle w1 _ _ Hne E) as H.
  cbv zeta in H. unfold idle in H at 1. cbv beta iota in H.
  destruct (with_stmt _ _ _) as [w' r].
  destruct H as (_ & _ & _ & _ & _ & H & _). cbn [fst]. rewrite H.
  vm_compute. reflexivity.
Defined.


End Runs.

(** ** Further properties of [open_file] *)

Section OpenFileMore.

Context (env : Env).
Implicit Types (x fh : pyval) (args : list pyval) (kwargs : gmap string pyval).
Implicit Types (w : world) (body : scope_body).

(** A text scheme is in the set when it is [http] or [https]. *)
Lemma in_http_set_text (v : PyVersion) (s : string) :
  in_http_set v (VText s) = true ↔ s = "http"%string ∨ s = "https"%string.
Proof.
unfold in_http_set. simpl. rewrite orb_false_r, orb_true_iff.
by rewrite !String.eqb_eq.
Qed.

(** X1. When the [close()] of an owned stream raises at scope exit, the
    caller gets that exception, whatever the way the body ended: an
    exception of the body is replaced by it.  That [close()] is the one
    call made after the body, and every other stream is as the body left
    it. *)
Theorem open_file_close_error_wins x args kwargs body w w1 h s e :
  _get_filehandle env x args kwargs w = (w1, Ok (VObj h, true)) →
  fst (body (VObj h) (heap w1)) !! h = Some s →
  close_error env s = Some e →
  let '(w', r) := with_stmt (open_file env x args kwargs) body w in
  r = Raise e ∧
  log w' = log w1 ++ [EvYield (VObj h); EvClose (VObj h)] ∧
  ∀ h', h' ≠ h → heap w' !! h' = fst (body (VObj h) (heap w1)) !! h'.
Proof.
intros E Hs He. rewrite with_open_file_run, E. cbv zeta.
unfold close, bind, emit. cbn [fst snd heap log].
rewrite Hs, He. cbn [fst snd heap log].
split; [done|]. split; [by rewrite <- app_assoc|].
intros h' Hne. by rewrite lookup_insert_ne.
Qed.

(** X3. Only the schemes [http] and [https] are fetched.  A text string
    whose scheme is anything else ([ftp], [file], a drive letter, none) is
    handed to [open] as a path, with the positional and keyword options. *)
Theorem other_scheme_opened_as_path (s scheme : string) args kwargs w :
  urlparse_scheme env (VText s) = Ok (VText scheme) →
  scheme ≠ "http"%string → scheme ≠ "https"%string →
  io_calls (since w (fst (_get_filehandle env (VText s) args kwargs w))) =
    [EvOpen (VText s) args kwargs].
Proof.
intros Hp H1 H2. rewrite get_filehandle_string by done. rewrite Hp.
assert (in_http_set (py_version env) (VText scheme) = false) as ->.
{ destruct (in_http_set _ _) eqn:Hin; [|done].
  apply in_http_set_text in Hin as [?|?]; done. }
destruct (builtin_open env (VText s) args kwargs);
  by erewrite since_app by (simpl; done).
Qed.

(** X4. For an [http] or [https] URL the positional options play no part:
    two scopes that differ only in them run the same way. *)
Theorem url_ignores_positional_options x args args' kwargs body w scheme :
  _is_string_or_bytes x = true →
  urlparse_scheme env x = Ok scheme →
  in_http_set (py_version env) scheme = true →
  with_stmt (open_file env x args kwargs) body w =
  with_stmt (open_file env x args' kwargs) body w.
Proof.
intros Hs Hp Hh. rewrite !with_open_file_run.
rewrite !get_filehandle_string by done. by rewrite Hp, Hh.
Qed.

(** X10. On Python 2 a byte string whose scheme is [http] or [https] is
    fetched: the one call made is [get] on the byte string with the
    keyword options. *)
Theorem bytes_url_fetched_on_py2 (b scheme : list byte) args kwargs w :
  py_version env = Py2 →
  urlparse_scheme env (VBytes b) = Ok (VBytes scheme) →
  string_of_list_byte scheme = "http"%string ∨
  string_of_list_byte scheme = "https"%string →
  io_calls (since w (fst (_get_filehandle env (VBytes b) args kwargs w))) =
    [EvGet (VBytes b) kwargs].
Proof.
intros Hv Hp Hsch. rewrite get_filehandle_string by done.
rewrite Hp, Hv, in_http_set_bytes_py2.
assert (in_http_set Py2 (VText (string_of_list_byte scheme)) = true) as ->
  by (by apply in_http_set_text).
destruct (session_get env (VBytes b) kwargs) as [resp|e];
  [destruct (raise_for_status env resp)|];
  by erewrite since_app by (simpl; done).
Qed.

(** X11. On Python 3 a byte string is never fetched, whatever it holds.
    When [urlparse] accepts it, the one call made is [open] on the byte
    string with the positional and keyword options; when [urlparse] raises
    (as it does on bytes that are not ASCII), that error is raised and
    nothing is fetched or opened.  ([urlparse] answers a byte string with
    a byte string, never with text.) *)
Theorem bytes_never_fetched_on_py3 (b : list byte) args kwargs w :
  py_version env = Py3 →
  (∀ s, urlparse_scheme env (VBytes b) ≠ Ok (VText s)) →
  let '(w', r) := _get_filehandle env (VBytes b) args kwargs w in
  match urlparse_scheme env (VBytes b) with
  | Ok _ => io_calls (since w w') = [EvOpen (VBytes b) args kwargs]
  | Raise e => io_calls (since w w') = [] ∧ r = Raise e
  end.
Proof.
intros Hv Hno. rewrite get_filehandle_string by done.
destruct (urlparse_scheme env (VBytes b)) as [scheme|e] eqn:Hp.
2:{ by erewrite since_app by (simpl; done). }
rewrite Hv.
assert (in_http_set Py3 scheme = false) as ->.
{ destruct scheme; try done. by destruct (Hno s). }
destruct (builtin_open env (VBytes b) args kwargs); cbv beta iota zeta;
  by erewrite since_app by (simpl; done).
Qed.

End OpenFileMore.

(** ** Further properties of [open_files] *)

Section OpenFilesMore.

Context (env : Env) (args : list pyval) (kwargs : gmap string pyval).
Implicit Types (x fh : pyval) (w : world) (body : scope_body).
Implicit Types (hp : gmap handle stream) (pairs : list (pyval * bool)).

Lemma io_calls_app (l1 l2 : list event) :
  io_calls (l1 ++ l2) = io_calls l1 ++ io_calls l2.
Proof.
induction l1 as [|ev l1 IH]; [done|].
destruct ev; simpl; by rewrite ?IH.
Qed.

(** Values that are no strings resolve to themselves, in place. *)
Lemma resolve_each_others (l : list pyval) w :
  Forall (fun x => _is_string_or_bytes x = false) l →
  resolve_each env args kwargs l w = (w, Ok (map (fun x => (x, false)) l)).
Proof.
induction 1 as [|x l Hx _ IH]; [done|].
rewrite resolve_each_cons, get_filehandle_other by done. by rewrite IH.
Qed.

Lemma close_owned_others (l : list pyval) w :
  close_owned env (map (fun x => (x, false)) l) w = (w, Ok tt).
Proof.
induction l as [|x l IH]; [done|]. cbn [map]. by rewrite close_owned_cons.
Qed.

(** X5. A list of values none of which is a string is handed to the scope
    as the tuple of these values, in order.  Yielding it is all
    [open_files] does: no stream is created, no [close()] is called, the
    store after the scope is the one the body left and the outcome of the
    body stands. *)
Theorem open_files_passes_streams_untouched (fp_list : list pyval) body w :
  fp_list ≠ [] →
  Forall (fun x => _is_string_or_bytes x = false) fp_list →
  with_stmt (open_files env fp_list args kwargs) body w =
    (World (fst (body (VTuple fp_list) (heap w)))
       (log w ++ [EvYield (VTuple fp_list)]),
     outcome (snd (body (VTuple fp_list) (heap w)))).
Proof.
intros Hne Hall.
rewrite with_open_files_run, resolve_each_others by done.
destruct fp_list as [|x l]; [done|].
set (l' := x :: l) in *.
assert (map fst (map (fun y : pyval => (y, false)) l') = l') as Hmap.
{ clear. induction l' as [|y l' IH]; [done|]. simpl. by rewrite IH. }
change (map (fun y : pyval => (y, false)) l')
  with ((x, false) :: map (fun y : pyval => (y, false)) l) at 1.
cbv zeta. fold l'.
change ((x, false) :: map (fun y : pyval => (y, false)) l)
  with (map (fun y : pyval => (y, false)) l').
by rewrite Hmap, close_owned_others.
Qed.

(** The store and the result of a [close()] do not depend on the log. *)
Lemma close_any_log fh hp (l l' : list event) :
  heap (fst (close env fh (World hp l))) = heap (fst (close env fh (World hp l'))) ∧
  snd (close env fh (World hp l)) = snd (close env fh (World hp l')).
Proof.
unfold close, bind, emit; simpl.
destruct fh as [| | | | | |h]; simpl; try done.
destruct (hp !! h) as [s|]; [destruct (close_error env s)|]; done.
Qed.

(** X6. [open_files] on a one-element list is [open_file] on that element,
    with the stream wrapped in a one-element tuple: the same fetch or open
    call, the same [close()] calls, the same store and the same result. *)
Theorem open_files_singleton x body w :
  let '(w1, r1) := with_stmt (open_file env x args kwargs) body w in
  let '(w2, r2) := with_stmt (open_files env [x] args kwargs) (on_single body) w in
  heap w2 = heap w1 ∧ r2 = r1 ∧
  close_events (log w2) = close_events (log w1) ∧
  io_calls (log w2) = io_calls (log w1).
Proof.
rewrite with_open_file_run, with_open_files_run, resolve_each_cons.
destruct (_get_filehandle env x args kwargs w) as [wa [[fh own]|e]]; [|done].
change (resolve_each env args kwargs [] wa) with (wa, Ok (@nil (pyval * bool))).
cbv zeta. cbn [map fst snd on_single].
destruct (body fh (heap wa)) as [hp out]. cbn [fst snd].
rewrite close_owned_cons. destruct own.
- pose proof (close_any_log fh hp (log wa ++ [EvYield (VTuple [fh])])
                (log wa ++ [EvYield fh])) as [Hh Hr].
  pose proof (close_log env fh (World hp (log wa ++ [EvYield (VTuple [fh])]))) as L2.
  pose proof (close_log env fh (World hp (log wa ++ [EvYield fh]))) as L1.
  destruct (close env fh (World hp (log wa ++ [EvYield (VTuple [fh])])))
    as [w2 r2].
  destruct (close env fh (World hp (log wa ++ [EvYield fh]))) as [w1 r1].
  cbn [fst snd heap log] in *. subst r2.
  assert (close_events (log w2) = close_events (log w1) ∧
          io_calls (log w2) = io_calls (log w1)) as [Hc Hi].
  { rewrite L1, L2, !close_events_app, !io_calls_app. done. }
  destruct r1 as [[]|e]; cbn [close_owned ret fst snd]; done.
- cbn [close_owned ret fst snd heap log].
  by rewrite !close_events_app, !io_calls_app.
Qed.

(** A resolution of a list that fails, fails at one element: the ones
    before it were resolved, and its own resolution raised. *)
Lemma resolve_each_fail_inv (l : list pyval) : ∀ w w1 e,
  resolve_each env args kwargs l w = (w1, Raise e) →
  ∃ pre x post wk pairs,
    l = pre ++ x :: post ∧
    resolve_each env args kwargs pre w = (wk, Ok pairs) ∧
    _get_filehandle env x args kwargs wk = (w1, Raise e).
Proof.
induction l as [|y l IH]; intros w w1 e E; [done|].
rewrite resolve_each_cons in E.
destruct (_get_filehandle env y args kwargs w) as [wa [p|e']] eqn:Ey.
- destruct (resolve_each env args kwargs l wa) as [wb [ps|e']] eqn:El; [done|].
  injection E as <- <-.
  apply IH in El as (pre & x & post & wk & pairs & -> & Hpre & Hx).
  exists (y :: pre), x, post, wk, (p :: pairs). repeat split; [|done].
  by rewrite resolve_each_cons, Ey, Hpre.
- injection E as <- <-. by exists [], y, l, w, [].
Qed.

(** X7. The resolution phase of [open_files] leaves every stream that
    existed before the call as it was, whether the resolution succeeds or
    fails on the way. *)
Theorem resolve_each_keeps_store (fp_list : list pyval) w w1 r h s :
  resolve_each env args kwargs fp_list w = (w1, r) →
  heap w !! h = Some s →
  heap w1 !! h = Some s.
Proof.
assert (∀ l w w1 pairs, resolve_each env args kwargs l w = (w1, Ok pairs) →
          heap w !! h = Some s → heap w1 !! h = Some s) as Hok.
{ intros l wi wo pairs E Hs.
  apply resolve_each_inv in E as (_ & _ & Hnew & _ & Hfr).
  rewrite Hfr; [done|]. intros Hin.
  apply Hnew in Hin as (h' & s' & [= <-] & Hn & _). by rewrite Hn in Hs. }
intros E Hs. destruct r as [pairs|e]; [by eapply Hok|].
apply resolve_each_fail_inv in E as (pre & x & post & wk & pairs & _ & Hpre & Hx).
apply get_filehandle_inv in Hx as (_ & _ & _ & _ & _ & -> & _).
by eapply Hok.
Qed.

(** X9. A resolution that fails, fails at a string of the list: the
    elements before it were resolved, its own resolution raised the error
    the caller gets, and the elements after it are not looked at: none of
    them is parsed, and the run is the same whatever they are and whatever
    the body is. *)
Theorem open_files_first_failure (fp_list : list pyval) w w1 e :
  resolve_each env args kwargs fp_list w = (w1, Raise e) →
  ∃ pre x post wk pairs,
    fp_list = pre ++ x :: post ∧ _is_string_or_bytes x = true ∧
    resolve_each env args kwargs pre w = (wk, Ok pairs) ∧
    _get_filehandle env x args kwargs wk = (w1, Raise e) ∧
    parse_events (since w w1) = List.filter _is_string_or_bytes pre ++ [x] ∧
    ∀ post' body',
      with_stmt (open_files env (pre ++ x :: post') args kwargs) body' w =
        (w1, Raise e).
Proof.
intros E.
apply resolve_each_fail_inv in E as (pre & x & post & wk & pairs & -> & Hpre & Hx).
exists pre, x, post, wk, pairs.
pose proof (resolve_each_inv _ _ _ _ _ _ _ Hpre) as ((evs & Hl & _ & _ & Hp) & _).
pose proof (get_filehandle_inv _ _ _ _ _ _ _ Hx)
  as (evs' & Hl' & _ & _ & Hp' & _ & Hs).
rewrite Hs in Hp'.
repeat split; try done.
- erewrite since_app by (rewrite Hl', Hl, <- app_assoc; done).
  by rewrite parse_events_app, Hp, Hp'.
- intros post' body'.
  by rewrite with_open_files_run, (resolve_each_app_fail _ _ _ _ _ _ _ _ _ _ _ Hpre Hx).
Qed.

(** The loop of [close()] calls when one stream refuses: the streams
    before it are closed, the refusal is the result, and the loop ends
    there, with every stream but these as it was. *)
Lemma close_owned_refusal pairs : ∀ w (before after : list pyval) h s e,
  NoDup (owned pairs) →
  owned pairs = before ++ VObj h :: after →
  existsb (close_refused env (heap w)) before = false →
  heap w !! h = Some s →
  close_error env s = Some e →
  snd (close_owned env pairs w) = Raise e ∧
  log (fst (close_owned env pairs w)) =
    log w ++ map EvClose (before ++ [VObj h]) ∧
  Forall (fun fh => is_closed (heap (fst (close_owned env pairs w))) fh = true)
         before ∧
  (∀ h', VObj h' ∉ before → h' ≠ h →
         heap (fst (close_owned env pairs w)) !! h' = heap w !! h').
Proof.
induction pairs as [|[fh0 own] pairs IH]; intros w before after h s e Hnd Hsplit Hex Hs He.
{ simpl in Hsplit. by destruct before. }
rewrite close_owned_cons. destruct own; [|by eapply IH].
cbn [owned] in Hnd, Hsplit. apply NoDup_cons in Hnd as [Hnin Hnd].
destruct before as [|b before]; simpl in Hsplit; injection Hsplit as -> Hrest.
- unfold close, bind, emit. cbn [fst snd heap log].
  rewrite Hs, He. cbn [fst snd heap log].
  split; [done|]. split; [done|]. split; [constructor|].
  intros h' _ Hne. by rewrite lookup_insert_ne.
- simpl in Hex. apply orb_false_iff in Hex as [Hb Hex].
  assert (VObj h ∈ owned pairs) as Hh
    by (rewrite Hrest, elem_of_app, elem_of_cons; by right; left).
  assert (∀ fh', fh' ∈ before → fh' ∈ owned pairs) as Hsub
    by (intros fh' Hin; rewrite Hrest, elem_of_app; by left).
  pose proof (close_log env b w) as Hlog.
  pose proof (close_frame env b w) as Hframe.
  pose proof (close_accepted_run env b w Hb) as [Hc Hok].
  pose proof (close_refused_frame env b w) as Hrf.
  destruct (close env b w) as [wa ra]. cbn [fst snd] in *. subst ra.
  destruct (attempted_ext env (heap wa) (heap w) before) as [_ Hex'].
  { intros fh' Hin. apply Hrf. intros ->. by apply Hnin, Hsub. }
  destruct (IH wa before after h s e Hnd Hrest) as (Hr & Hl & Hcl & Hfr).
  { by rewrite Hex'. }
  { rewrite Hframe; [done|]. by intros <-. }
  { done. }
  split; [done|]. split; [by rewrite Hl, Hlog, <- app_assoc|]. split.
  + constructor; [|done].
    destruct b as [| | | | | |hb]; try done.
    unfold is_closed in *. rewrite Hfr; [done| |].
    * intros Hin. by apply Hnin, Hsub.
    * by intros ->.
  + intros h' Hin Hne. rewrite Hfr, Hframe; [done| | |done].
    * intros <-. apply Hin. by left.
    * intros Hin'. apply Hin. by right.
Qed.

(** X8. When the [close()] of one owned stream raises at the exit of an
    [open_files] scope, the caller gets that exception, whatever the way
    the body ended; the owned streams before it in the list have been
    closed; the owned streams after it get no [close()] call; and every
    stream [open_files] does not own is as the body left it. *)
Theorem open_files_close_failure (fp_list : list pyval) body w w1 pairs
    (before after : list pyval) h s e :
  resolve_each env args kwargs fp_list w = (w1, Ok pairs) →
  let hp := fst (body (VTuple (map fst pairs)) (heap w1)) in
  owned pairs = before ++ VObj h :: after →
  existsb (close_refused env hp) before = false →
  hp !! h = Some s →
  close_error env s = Some e →
  let '(w', r) := with_stmt (open_files env fp_list args kwargs) body w in
  r = Raise e ∧
  since w1 w' = EvYield (VTuple (map fst pairs)) :: map EvClose (before ++ [VObj h]) ∧
  Forall (fun fh => fh ∉ close_events (since w1 w')) after ∧
  Forall (fun fh => is_closed (heap w') fh = true) before ∧
  (∀ h', VObj h' ∉ owned pairs → heap w' !! h' = hp !! h').
Proof.
intros E hp Hsplit Hex Hs He. subst hp.
pose proof (resolve_each_inv _ _ _ _ _ _ _ E) as (_ & _ & _ & Hnd & _).
rewrite with_open_files_run, E.
destruct pairs as [|p pairs]; [by destruct before|].
set (ps := p :: pairs) in *. cbv zeta.
set (wy := World (fst (body (VTuple (map fst ps)) (heap w1)))
             (log w1 ++ [EvYield (VTuple (map fst ps))])).
destruct (close_owned_refusal ps wy before after h s e Hnd Hsplit Hex Hs He)
  as (Hr & Hl & Hcl & Hfr).
rewrite Hr. cbn [fst snd].
assert (since w1 (fst (close_owned env ps wy)) =
        EvYield (VTuple (map fst ps)) :: map EvClose (before ++ [VObj h])) as Hsince.
{ apply since_app. rewrite Hl. subst wy. cbn [log]. by rewrite <- app_assoc. }
split; [done|]. split; [done|]. split; [|split; [done|]].
- rewrite Hsince. cbn [close_events].
  destruct (events_of_closes (before ++ [VObj h])) as (-> & _).
  rewrite Hsplit in Hnd. apply NoDup_app in Hnd as (_ & Hdis & Hnd').
  apply NoDup_cons in Hnd' as [Hnh _].
  apply Forall_forall. intros fh Hin Hin'.
  apply elem_of_app in Hin' as [Hb|Hh].
  + apply (Hdis fh Hb). by right.
  + apply list_elem_of_singleton in Hh as ->. done.
- intros h' Hnin. apply Hfr.
  + intros Hin. apply Hnin. rewrite Hsplit, elem_of_app. by left.
  + intros ->. apply Hnin. rewrite Hsplit, elem_of_app, elem_of_cons.
    by right; left.
Qed.

End OpenFilesMore.

(** ** More runs in the sample environment *)

Section RunsMore.

Import Sample.

(** A file that cannot be flushed, under a body that fails: the caller
    sees the error of [close()]. *)
Lemma open_file_close_error_wins_witness :
  let w1 := fst (_get_filehandle env_stuck a_txt [VText "w"] ∅ w0) in
  let s := Stream (FromOpen a_txt [VText "w"] ∅) false in
  _get_filehandle env_stuck a_txt [VText "w"] ∅ w0 = (w1, Ok (VObj 1, true)) ∧
  fst (failing (VObj 1) (heap w1)) !! 1 = Some s ∧
  close_error env_stuck s = Some OSError ∧
  snd (with_stmt (open_file env_stuck a_txt [VText "w"] ∅) failing w0) =
    Raise OSError.
Proof.
intros w1 s.
assert (_get_filehandle env_stuck a_txt [VText "w"] ∅ w0 = (w1, Ok (VObj 1, true)))
  as E by (vm_compute; reflexivity).
assert (fst (failing (VObj 1) (heap w1)) !! 1 = Some s) as Hs
  by (vm_compute; reflexivity).
assert (close_error env_stuck s = Some OSError) as He by reflexivity.
split; [exact E|]. split; [exact Hs|]. split; [exact He|].
pose proof (open_file_close_error_wins env_stuck a_txt [VText "w"] ∅ failing
              w0 w1 1 s OSError E Hs He) as H.
destruct (with_stmt _ _ _) as [w' r]. exact (proj1 H).
Defined.

(** An [ftp] URL is opened as a path. *)
Lemma other_scheme_opened_as_path_witness :
  urlparse_scheme (env Py3) (VText "ftp://example.com/x") = Ok (VText "ftp") ∧
  "ftp"%string ≠ "http"%string ∧ "ftp"%string ≠ "https"%string ∧
  io_calls (since w0 (fst (_get_filehandle (env Py3) (VText "ftp://example.com/x")
                             [] ∅ w0))) =
    [EvOpen (VText "ftp://example.com/x") [] ∅].
Proof.
assert (urlparse_scheme (env Py3) (VText "ftp://example.com/x") = Ok (VText "ftp"))
  as Hp by (vm_compute; reflexivity).
assert ("ftp"%string ≠ "http"%string) as H1 by discriminate.
assert ("ftp"%string ≠ "https"%string) as H2 by discriminate.
split; [exact Hp|]. split; [exact H1|]. split; [exact H2|].
exact (other_scheme_opened_as_path (env Py3) "ftp://example.com/x" "ftp" [] ∅ w0
         Hp H1 H2).
Defined.

(** A URL opened with and without a mode. *)
Lemma url_ignores_positional_options_witness :
  _is_string_or_bytes (VText url_ok) = true ∧
  urlparse_scheme (env Py3) (VText url_ok) = Ok (VText "http") ∧
  in_http_set (py_version (env Py3)) (VText "http") = true ∧
  with_stmt (open_file (env Py3) (VText url_ok) [] ∅) idle w0 =
  with_stmt (open_file (env Py3) (VText url_ok) [VText "rb"] ∅) idle w0.
Proof.
assert (urlparse_scheme (env Py3) (VText url_ok) = Ok (VText "http")) as Hp
  by (vm_compute; reflexivity).
split; [reflexivity|]. split; [exact Hp|]. split; [reflexivity|].
exact (url_ignores_positional_options (env Py3) (VText url_ok) [] [VText "rb"] ∅
         idle w0 (VText "http") eq_refl Hp eq_refl).
Defined.

(** A byte-string URL on the two interpreters. *)
Lemma bytes_url_fetched_on_py2_witness :
  py_version (env Py2) = Py2 ∧
  urlparse_scheme (env Py2) url_bytes = Ok (VBytes (list_byte_of_string "http")) ∧
  (string_of_list_byte (list_byte_of_string "http") = "http"%string ∨
   string_of_list_byte (list_byte_of_string "http") = "https"%string) ∧
  io_calls (since w0 (fst (_get_filehandle (env Py2) url_bytes [] ∅ w0))) =
    [EvGet url_bytes ∅].
Proof.
assert (urlparse_scheme (env Py2) url_bytes
        = Ok (VBytes (list_byte_of_string "http"))) as Hp
  by (vm_compute; reflexivity).
assert (string_of_list_byte (list_byte_of_string "http") = "http"%string ∨
        string_of_list_byte (list_byte_of_string "http") = "https"%string) as Hs
  by (left; reflexivity).
split; [reflexivity|]. split; [exact Hp|]. split; [exact Hs|].
exact (bytes_url_fetched_on_py2 (env Py2) (list_byte_of_string url_ok)
         (list_byte_of_string "http") [] ∅ w0 eq_refl Hp Hs).
Defined.

Lemma bytes_never_fetched_on_py3_witness :
  py_version (env Py3) = Py3 ∧
  (∀ s, urlparse_scheme (env Py3) url_bytes ≠ Ok (VText s)) ∧
  io_calls (since w0 (fst (_get_filehandle (env Py3) url_bytes [] ∅ w0))) =
    [EvOpen url_bytes [] ∅].
Proof.
assert (urlparse_scheme (env Py3) url_bytes
        = Ok (VBytes (list_byte_of_string "http"))) as Hp
  by (vm_compute; reflexivity).
assert (∀ s, urlparse_scheme (env Py3) url_bytes ≠ Ok (VText s)) as Hno
  by (intros s; rewrite Hp; discriminate).
split; [reflexivity|]. split; [exact Hno|].
pose proof (bytes_never_fetched_on_py3 (env Py3) (list_byte_of_string url_ok)
              [] ∅ w0 eq_refl Hno) as H.
fold url_bytes in H. rewrite Hp in H.
destruct (_get_filehandle _ _ _ _ _) as [w' r]. exact H.
Defined.

(** A stream of the caller and [None]. *)
Lemma open_files_passes_streams_untouched_witness :
  [VObj 7; VNone] ≠ [] ∧
  Forall (fun x => _is_string_or_bytes x = false) [VObj 7; VNone] ∧
  with_stmt (open_files (env Py3) [VObj 7; VNone] [] ∅) idle w1 =
    (World (heap w1) [EvYield (VTuple [VObj 7; VNone])], Ok tt).
Proof.
assert ([VObj 7; VNone] ≠ []) as Hne by discriminate.
assert (Forall (fun x => _is_string_or_bytes x = false) [VObj 7; VNone]) as Hall
  by (repeat constructor).
split; [exact Hne|]. split; [exact Hall|].
exact (open_files_passes_streams_untouched (env Py3) [] ∅ [VObj 7; VNone] idle w1
         Hne Hall).
Defined.

(** The stream of the caller survives a resolution that fails. *)
Lemma resolve_each_keeps_store_witness :
  let wf := fst (resolve_each (env Py3) [] ∅ [a_txt; missing_txt] w1) in
  resolve_each (env Py3) [] ∅ [a_txt; missing_txt] w1 =
    (wf, Raise FileNotFoundError) ∧
  heap w1 !! 7 = Some (Stream Supplied false) ∧
  heap wf !! 7 = Some (Stream Supplied false).
Proof.
intros wf.
assert (resolve_each (env Py3) [] ∅ [a_txt; missing_txt] w1 =
          (wf, Raise FileNotFoundError)) as E by (vm_compute; reflexivity).
assert (heap w1 !! 7 = Some (Stream Supplied false)) as Hs
  by (vm_compute; reflexivity).
split; [exact E|]. split; [exact Hs|].
exact (resolve_each_keeps_store (env Py3) [] ∅ [a_txt; missing_txt] w1 wf _ 7 _
         E Hs).
Defined.

(** Three files, the second of which cannot be flushed. *)
Lemma open_files_close_failure_witness :
  let l := [b_txt; a_txt; b_txt] in
  let wr := fst (resolve_each env_stuck [VText "w"] ∅ l w0) in
  let pairs := [(VObj 1, true); (VObj 2, true); (VObj 3, true)] in
  let s := Stream (FromOpen a_txt [VText "w"] ∅) false in
  resolve_each env_stuck [VText "w"] ∅ l w0 = (wr, Ok pairs) ∧
  owned pairs = [VObj 1] ++ VObj 2 :: [VObj 3] ∧
  existsb (close_refused env_stuck
             (fst (idle (VTuple (map fst pairs)) (heap wr)))) [VObj 1] = false ∧
  fst (idle (VTuple (map fst pairs)) (heap wr)) !! 2 = Some s ∧
  close_error env_stuck s = Some OSError ∧
  snd (with_stmt (open_files env_stuck l [VText "w"] ∅) idle w0) = Raise OSError ∧
  is_closed (heap (fst (with_stmt (open_files env_stuck l [VText "w"] ∅) idle w0)))
            (VObj 1) = true.
Proof.
intros l wr pairs s.
assert (resolve_each env_stuck [VText "w"] ∅ l w0 = (wr, Ok pairs)) as E
  by (vm_compute; reflexivity).
assert (owned pairs = [VObj 1] ++ VObj 2 :: [VObj 3]) as Hsplit by reflexivity.
assert (existsb (close_refused env_stuck
                   (fst (idle (VTuple (map fst pairs)) (heap wr)))) [VObj 1]
        = false) as Hex by (vm_compute; reflexivity).
assert (fst (idle (VTuple (map fst pairs)) (heap wr)) !! 2 = Some s) as Hs
  by (vm_compute; reflexivity).
assert (close_error env_stuck s = Some OSError) as He by reflexivity.
split; [exact E|]. split; [exact Hsplit|]. split; [exact Hex|].
split; [exact Hs|]. split; [exact He|].
pose proof (open_files_close_failure env_stuck [VText "w"] ∅ l idle w0 wr pairs
              [VObj 1] [VObj 3] 2 s OSError E Hsplit Hex Hs He) as H.
destruct (with_stmt _ _ _) as [w' r]. cbn [fst snd].
destruct H as (Hr & _ & _ & Hcl & _).
split; [exact Hr|]. by apply Forall_cons_1 in Hcl as [Hcl _].
Defined.

(** A file, a missing file, another file. *)
Lemma open_files_first_failure_witness :
  let l := [a_txt; missing_txt; b_txt] in
  let wf := fst (resolve_each (env Py3) [] ∅ l w0) in
  resolve_each (env Py3) [] ∅ l w0 = (wf, Raise FileNotFoundError) ∧
  ∃ pre x post, l = pre ++ x :: post ∧ _is_string_or_bytes x = true ∧
    ∀ post' body',
      with_stmt (open_files (env Py3) (pre ++ x :: post') [] ∅) body' w0 =
        (wf, Raise FileNotFoundError).
Proof.
intros l wf.
assert (resolve_each (env Py3) [] ∅ l w0 = (wf, Raise FileNotFoundError)) as E
  by (vm_compute; reflexivity).
split; [exact E|].
destruct (open_files_first_failure (env Py3) [] ∅ l w0 wf FileNotFoundError E)
  as (pre & x & post & wk & pairs & Hl & Hx & _ & _ & _ & Hrun).
exists pre, x, post. split; [exact Hl|]. split; [exact Hx|exact Hrun].
Defined.

End RunsMore.

(** ** What [open_files] never closes *)

Section OpenFilesSafety.

Context (env : Env) (args : list pyval) (kwargs : gmap string pyval).
Implicit Types (x fh : pyval) (w : world) (body : scope_body).
Implicit Types (hp : gmap handle stream) (pairs : list (pyval * bool)).

Lemma attempted_is_prefix hp (l : list pyval) :
  ∃ rest, l = attempted env hp l ++ rest.
Proof.
induction l as [|fh l [rest IH]]; [by exists []|].
simpl. destruct (close_refused env hp fh).
- by exists l.
- exists rest. by rewrite <- IH.
Qed.

(** X13. Whatever the list, the body and the outcome, [open_files] calls
    [close()] at most once on a stream, and only on streams that did not
    exist before the call: a stream of the caller gets no [close()]. *)
Theorem open_files_closes_only_its_own (fp_list : list pyval) body w :
  let w' := fst (with_stmt (open_files env fp_list args kwargs) body w) in
  NoDup (close_events (since w w')) ∧
  Forall (fun fh => ∃ h, fh = VObj h ∧ heap w !! h = None)
         (close_events (since w w')).
Proof.
cbv zeta. rewrite with_open_files_run.
destruct (resolve_each env args kwargs fp_list w) as [w1 [pairs|e]] eqn:E.
- pose proof (resolve_each_inv _ _ _ _ _ _ _ E)
    as ((evs & Hlog & Hcl & _ & _) & _ & Hnew & Hnd & _).
  destruct pairs as [|p pairs].
  { cbn [fst]. erewrite since_app by done. rewrite Hcl.
    split; constructor. }
  set (ps := p :: pairs) in *. cbv zeta.
  set (hp := fst (body (VTuple (map fst ps)) (heap w1))).
  set (wy := World hp (log w1 ++ [EvYield (VTuple (map fst ps))])).
  destruct (close_owned_run env ps wy Hnd) as (Hl & _).
  assert (close_events (since w (fst (close_owned env ps wy))) =
          attempted env hp (owned ps)) as Hev.
  { erewrite since_app
      by (rewrite Hl; subst wy; cbn [log heap]; rewrite Hlog, <- !app_assoc; done).
    rewrite !close_events_app, Hcl. cbn [close_events app].
    by destruct (events_of_closes (attempted env hp (owned ps))) as (-> & _). }
  assert (NoDup (attempted env hp (owned ps)) ∧
          Forall (fun fh => ∃ h, fh = VObj h ∧ heap w !! h = None)
                 (attempted env hp (owned ps))) as Hgoal.
  { destruct (attempted_is_prefix hp (owned ps)) as [rest Hrest].
    split.
    - rewrite Hrest in Hnd. by apply NoDup_app in Hnd as (? & _).
    - apply Forall_forall. intros fh Hin.
      destruct (Hnew fh) as (h & s & -> & Hn & _); [|by exists h].
      rewrite Hrest, elem_of_app. by left. }
  destruct (snd (close_owned env ps wy)); cbn [fst]; by rewrite Hev.
- cbn [fst].
  apply resolve_each_fail_inv in E as (pre & x & post & wk & pairs & _ & Hpre & Hx).
  apply resolve_each_inv in Hpre as ((evs & Hlog & Hcl & _ & _) & _).
  apply get_filehandle_inv in Hx as (evs' & Hlog' & Hcl' & _).
  erewrite since_app by (rewrite Hlog', Hlog, <- app_assoc; done).
  rewrite close_events_app, Hcl, Hcl'. split; constructor.
Qed.

End OpenFilesSafety.
